(** * TeenFin mockup: the cursor controller and the mockup navigator

    A shallow embedding of the two stateful pieces of the application:
    [TargetCursor] (the effect that hides the native cursor, starts the spin
    timeline and subscribes to pointer events, and its cleanup) and the
    navigator ([App]'s [screen] state rendered through [PhoneMockup]).

    The page state the code touches (document.body.style.cursor, the three
    refs, window's listener table, the timelines gsap has handed out and the
    tweens it was asked for) is threaded explicitly.  JavaScript numbers are
    rationals: every number the code passes around is a literal, a prop or a
    window dimension halved, and none is computed with otherwise. *)

From Stdlib Require Import QArith.
From stdpp Require Import base strings list.

Open Scope string_scope.
Open Scope list_scope.

(** ** gsap, as far as the code calls it

    The library is not part of the repository.  Calls are recorded with the
    arguments the code passes; [plays], [cycle_duration], [ease_fn] and
    [tween_at] read a timeline the way gsap documents [repeat], sequenced
    [.to] tweens, [ease] and relative values. *)

Module Gsap.

(** Identity of a DOM element held by a ref. *)
Definition Elem := nat.

(** The easings the source names: ['none'] and ['power3.out']. *)
Inductive Ease := EaseNone | EasePower3Out.

(** A property value: a number, or a relative string such as ['+=360']. *)
Inductive Value :=
| Abs (q : Q)
| PlusEq (q : Q).

(** The [vars] object of [gsap.set] / [gsap.to]; absent keys are [None]. *)
Record Vars := {
  xPercent : option Q;
  yPercent : option Q;
  x : option Q;
  y : option Q;
  scale : option Q;
  rotation : option Value;
  duration : option Q;
  ease : option Ease
}.

(** A direct call on an element. *)
Inductive Call :=
| CSet (target : Elem) (v : Vars)
| CTo (target : Elem) (v : Vars).

(** A timeline object: its [repeat] setting, the tweens appended with
    [.to], and whether [.kill()] has been called on it. *)
Record Timeline := {
  tl_repeat : Z;
  tl_tweens : list (Elem * Vars);
  tl_killed : bool
}.

Definition kill (tl : Timeline) : Timeline :=
  {| tl_repeat := tl_repeat tl; tl_tweens := tl_tweens tl; tl_killed := true |}.

(** [vars.duration], 0.5 when absent (gsap's default).  The value is taken
    as given: this is gsap's reading of the durations that are not negative,
    which is what the component's spinDuration is meant to be. *)
Definition dur (v : Vars) : Q :=
  match duration v with Some d => d | None => 0.5%Q end.

(** Length of one pass of the timeline: tweens appended with [.to] are
    sequenced one after the other. *)
Definition cycle_duration (tl : Timeline) : Q :=
  foldr (fun tv acc => Qplus (dur (snd tv)) acc) 0%Q (tl_tweens tl).

(** Iteration [n] (0 is the first pass) is played: the timeline has not
    been killed, and [repeat] is negative (repeat forever) or at least
    [n]. *)
Definition plays (tl : Timeline) (n : nat) : bool :=
  negb (tl_killed tl) && ((tl_repeat tl <? 0)%Z || (Z.of_nat n <=? tl_repeat tl)%Z).

Definition alive (tl : Timeline) : bool := negb (tl_killed tl).

(** Progress curve of an easing on [0,1]: the identity for ['none'], the
    quartic 1 - (1 - p)^4 for ['power3.out'], and power1.out, the quadratic,
    when [ease] is left out (gsap's default). *)
Definition ease_fn (e : option Ease) (p : Q) : Q :=
  match e with
  | Some EaseNone => p
  | Some EasePower3Out => 1 - (1 - p) * (1 - p) * (1 - p) * (1 - p)
  | None => 1 - (1 - p) * (1 - p)
  end.

(** Value of an animated property at local time [t] of a tween that
    started from [start]. *)
Definition tween_at (start : Q) (target : Value) (v : Vars) (t : Q) : Q :=
  let p := ease_fn (ease v) (t / dur v) in
  match target with
  | Abs q => start + (q - start) * p
  | PlusEq d => start + d * p
  end.

End Gsap.

Import Gsap.

(** ** The page *)

Inductive EventType := mousemove | mousedown | mouseup.

#[global] Instance EventType_eq_dec : EqDecision EventType.
Proof. solve_decision. Defined.

(** The closures an effect run creates.  Each run creates fresh ones, so a
    listener is identified by its kind and the run that made it. *)
Inductive Listener :=
| MoveHandler (run : nat)
| MouseDownHandler (run : nat)
| MouseUpHandler (run : nat).

#[global] Instance Listener_eq_dec : EqDecision Listener.
Proof. solve_decision. Defined.

Record MouseEvent := {
  ev_type : EventType;
  clientX : Q;
  clientY : Q
}.

Record World := {
  body_cursor : string;                       (* document.body.style.cursor *)
  cursor_writes : list string;                (* every value assigned to it, oldest first *)
  innerWidth : Q;
  innerHeight : Q;
  cursorRef : option Elem;
  dotRef : option Elem;
  spinTl : option nat;                        (* index into [timelines] *)
  timelines : list Timeline;                  (* every timeline created, by creation order *)
  listeners : list (EventType * Listener);    (* window's listener table *)
  calls : list Call;                          (* gsap.set / gsap.to calls, oldest first *)
  runs : nat                                  (* effect runs so far *)
}.

Definition set_body_cursor (v : string) (w : World) : World :=
  {| body_cursor := v; cursor_writes := cursor_writes w ++ [v];
     innerWidth := innerWidth w; innerHeight := innerHeight w;
     cursorRef := cursorRef w; dotRef := dotRef w; spinTl := spinTl w;
     timelines := timelines w; listeners := listeners w; calls := calls w;
     runs := runs w |}.

Definition gsap_call (c : Call) (w : World) : World :=
  {| body_cursor := body_cursor w; cursor_writes := cursor_writes w;
     innerWidth := innerWidth w; innerHeight := innerHeight w;
     cursorRef := cursorRef w; dotRef := dotRef w; spinTl := spinTl w;
     timelines := timelines w; listeners := listeners w; calls := calls w ++ [c];
     runs := runs w |}.

Definition set_timelines (spin : option nat) (tls : list Timeline) (w : World) : World :=
  {| body_cursor := body_cursor w; cursor_writes := cursor_writes w;
     innerWidth := innerWidth w; innerHeight := innerHeight w;
     cursorRef := cursorRef w; dotRef := dotRef w; spinTl := spin;
     timelines := tls; listeners := listeners w; calls := calls w;
     runs := runs w |}.

Definition set_listeners (ls : list (EventType * Listener)) (w : World) : World :=
  {| body_cursor := body_cursor w; cursor_writes := cursor_writes w;
     innerWidth := innerWidth w; innerHeight := innerHeight w;
     cursorRef := cursorRef w; dotRef := dotRef w; spinTl := spinTl w;
     timelines := timelines w; listeners := ls; calls := calls w;
     runs := runs w |}.

Definition set_refs (c d : option Elem) (spin : option nat) (w : World) : World :=
  {| body_cursor := body_cursor w; cursor_writes := cursor_writes w;
     innerWidth := innerWidth w; innerHeight := innerHeight w;
     cursorRef := c; dotRef := d; spinTl := spin;
     timelines := timelines w; listeners := listeners w; calls := calls w;
     runs := runs w |}.

Definition next_run (w : World) : World :=
  {| body_cursor := body_cursor w; cursor_writes := cursor_writes w;
     innerWidth := innerWidth w; innerHeight := innerHeight w;
     cursorRef := cursorRef w; dotRef := dotRef w; spinTl := spinTl w;
     timelines := timelines w; listeners := listeners w; calls := calls w;
     runs := S (runs w) |}.

(** [spinTl.current.kill()] / [spinTl.current?.kill()]: nothing when the ref
    is null. *)
Definition kill_spin (w : World) : World :=
  match spinTl w with
  | Some i => set_timelines (spinTl w) (alter kill i (timelines w)) w
  | None => w
  end.

(** [window.addEventListener]: a listener already registered for the type
    is not added twice. *)
Definition addEventListener (t : EventType) (l : Listener) (w : World) : World :=
  if bool_decide ((t, l) ∈ listeners w) then w
  else set_listeners (listeners w ++ [(t, l)]) w.

Definition removeEventListener (t : EventType) (l : Listener) (w : World) : World :=
  set_listeners (filter (fun tl => tl ≠ (t, l)) (listeners w)) w.

(** Number of timelines that have not been killed. *)
Definition live (l : list Timeline) : nat :=
  length (filter (fun tl => alive tl = true) l).

Definition live_timelines (w : World) : nat := live (timelines w).

(** ** TargetCursor (src/src/App.tsx) *)

Record Props := {
  spinDuration : Q;
  hideDefaultCursor : bool
}.

(** The defaults of the destructured parameter. *)
Definition default_props : Props := {| spinDuration := 2; hideDefaultCursor := true |}.

(** What an effect run of src/src/App.tsx returns.  [CleanupVoid] is
    [() => void 0]; [CleanupFull] is the closure over [originalCursor] and
    the three handlers of that run. *)
Inductive Cleanup :=
| CleanupVoid
| CleanupFull (originalCursor : string) (run : nat).

(** [moveCursor]: tween the indicator to the pointer, unless it is gone. *)
Definition moveCursor (px py : Q) (w : World) : World :=
  match cursorRef w with
  | None => w
  | Some c =>
      gsap_call (CTo c {| xPercent := None; yPercent := None;
                          x := Some px; y := Some py; scale := None; rotation := None;
                          duration := Some 0.1%Q; ease := Some EasePower3Out |}) w
  end.

Definition scale_vars (s d : Q) : Vars :=
  {| xPercent := None; yPercent := None; x := None; y := None;
     scale := Some s; rotation := None; duration := Some d; ease := None |}.

Definition center_vars (w : World) : Vars :=
  {| xPercent := Some (-50)%Q; yPercent := Some (-50)%Q;
     x := Some (innerWidth w / 2)%Q; y := Some (innerHeight w / 2)%Q;
     scale := None; rotation := None; duration := None; ease := None |}.

Definition spin_vars (d : Q) : Vars :=
  {| xPercent := None; yPercent := None; x := None; y := None;
     scale := None; rotation := Some (PlusEq 360); duration := Some d;
     ease := Some EaseNone |}.

(** [gsap.timeline({ repeat: -1 }).to(cursor, { rotation: '+=360', ... })] *)
Definition spin_timeline (cursor : Elem) (d : Q) : Timeline :=
  {| tl_repeat := -1; tl_tweens := [(cursor, spin_vars d)]; tl_killed := false |}.

(** Store a newly created timeline in [spinTl.current]. *)
Definition new_spin (tl : Timeline) (w : World) : World :=
  set_timelines (Some (length (timelines w))) (timelines w ++ [tl]) w.

Module TargetCursor.

Definition mouseDownHandler (w : World) : World :=
  match dotRef w, cursorRef w with
  | Some d, Some c =>
      gsap_call (CTo c (scale_vars 0.95 0.15)) (gsap_call (CTo d (scale_vars 0.8 0.15)) w)
  | _, _ => w
  end.

Definition mouseUpHandler (w : World) : World :=
  match dotRef w, cursorRef w with
  | Some d, Some c =>
      gsap_call (CTo c (scale_vars 1 0.15)) (gsap_call (CTo d (scale_vars 1 0.15)) w)
  | _, _ => w
  end.

Definition call_listener (l : Listener) (e : MouseEvent) (w : World) : World :=
  match l with
  | MoveHandler _ => moveCursor (clientX e) (clientY e) w
  | MouseDownHandler _ => mouseDownHandler w
  | MouseUpHandler _ => mouseUpHandler w
  end.

(** The body of [useEffect]. *)
Definition effect (p : Props) (w0 : World) : World * Cleanup :=
  let originalCursor := body_cursor w0 in
  let w1 := if hideDefaultCursor p then set_body_cursor "none" w0 else w0 in
  match cursorRef w1 with
  | None => (w1, CleanupVoid)
  | Some cursor =>
      let w2 := gsap_call (CSet cursor (center_vars w1)) w1 in
      let w3 := kill_spin w2 in
      let w4 := new_spin (spin_timeline cursor (spinDuration p)) w3 in
      let r := runs w4 in
      let w5 := addEventListener mousemove (MoveHandler r) w4 in
      let w6 := addEventListener mousedown (MouseDownHandler r) w5 in
      let w7 := addEventListener mouseup (MouseUpHandler r) w6 in
      (next_run w7, CleanupFull originalCursor r)
  end.

(** Calling the function the effect returned. *)
Definition run_cleanup (c : Cleanup) (w : World) : World :=
  match c with
  | CleanupVoid => w
  | CleanupFull originalCursor r =>
      let w1 := removeEventListener mousemove (MoveHandler r) w in
      let w2 := removeEventListener mousedown (MouseDownHandler r) w1 in
      let w3 := removeEventListener mouseup (MouseUpHandler r) w2 in
      let w4 := kill_spin w3 in
      set_body_cursor originalCursor w4
  end.

(** The window delivers an event to the listeners registered for its
    type, in registration order. *)
Definition dispatch (e : MouseEvent) (w : World) : World :=
  foldl (fun acc tl => if bool_decide (tl.1 = ev_type e)
                       then call_listener tl.2 e acc else acc)
        w (listeners w).

(** *** The component's life, as React drives it *)

Record Controller := {
  world : World;
  active : option (Props * Cleanup)   (* props of the last render, pending cleanup *)
}.

Inductive Event :=
| Mount (p : Props) (cursorEl dotEl : option Elem)
| Update (p : Props)
| Unmount
| Attach (cursorEl dotEl : option Elem)   (* React sets the element refs anew *)
| Pointer (e : MouseEvent).

(** The dependency array [[hideDefaultCursor, moveCursor, spinDuration]];
    [moveCursor] comes from [useCallback] with no dependencies and never
    changes. *)
Definition deps_same (p q : Props) : bool :=
  Bool.eqb (hideDefaultCursor p) (hideDefaultCursor q)
  && Qeq_bool (spinDuration p) (spinDuration q).

Definition step (c : Controller) (e : Event) : Controller :=
  match e, active c with
  | Mount p ce de, None =>
      let '(w, cl) := effect p (set_refs ce de None (world c)) in
      {| world := w; active := Some (p, cl) |}
  | Update q, Some (p, cl) =>
      if deps_same p q then {| world := world c; active := Some (q, cl) |}
      else
        let '(w, cl') := effect q (run_cleanup cl (world c)) in
        {| world := w; active := Some (q, cl') |}
  | Unmount, Some (_, cl) =>
      let w := run_cleanup cl (world c) in
      {| world := set_refs None None (spinTl w) w; active := None |}
  | Attach ce de, Some _ =>
      {| world := set_refs ce de (spinTl (world c)) (world c); active := active c |}
  | Pointer ev, _ => {| world := dispatch ev (world c); active := active c |}
  | _, _ => c
  end.

Definition run (c : Controller) (es : list Event) : Controller := foldl step c es.

(** A page on which the component has never been mounted. *)
Definition fresh (cursor : string) (iw ih : Q) : Controller :=
  {| world := {| body_cursor := cursor; cursor_writes := [];
                 innerWidth := iw; innerHeight := ih;
                 cursorRef := None; dotRef := None; spinTl := None;
                 timelines := []; listeners := []; calls := []; runs := 0 |};
     active := None |}.

End TargetCursor.

(** ** TargetCursor of the reduced App (src/unnamed/part_000)

    The same effect without the press and release handlers: it subscribes to
    mousemove only. *)

Module Reduced.

(** What an effect run of this file returns: [() => void 0], or the closure
    over [originalCursor] and the run's one handler. *)
Inductive Cleanup :=
| NoCleanup
| CleanupMove (originalCursor : string) (run : nat).

Definition call_listener (l : Listener) (e : MouseEvent) (w : World) : World :=
  match l with
  | MoveHandler _ => moveCursor (clientX e) (clientY e) w
  | _ => w
  end.

Definition effect (p : Props) (w0 : World) : World * Cleanup :=
  let originalCursor := body_cursor w0 in
  let w1 := if hideDefaultCursor p then set_body_cursor "none" w0 else w0 in
  match cursorRef w1 with
  | None => (w1, NoCleanup)
  | Some cursor =>
      let w2 := gsap_call (CSet cursor (center_vars w1)) w1 in
      let w3 := kill_spin w2 in
      let w4 := new_spin (spin_timeline cursor (spinDuration p)) w3 in
      let r := runs w4 in
      let w5 := addEventListener mousemove (MoveHandler r) w4 in
      (next_run w5, CleanupMove originalCursor r)
  end.

Definition run_cleanup (c : Cleanup) (w : World) : World :=
  match c with
  | NoCleanup => w
  | CleanupMove originalCursor r =>
      let w1 := removeEventListener mousemove (MoveHandler r) w in
      let w2 := kill_spin w1 in
      set_body_cursor originalCursor w2
  end.

Definition dispatch (e : MouseEvent) (w : World) : World :=
  foldl (fun acc tl => if bool_decide (tl.1 = ev_type e)
                       then call_listener tl.2 e acc else acc)
        w (listeners w).

End Reduced.

(** ** The navigator *)

Inductive ScreenName := home | shop | save | invest.

#[global] Instance ScreenName_eq_dec : EqDecision ScreenName.
Proof. solve_decision. Defined.

(** The state of a mounted [App]: its [useState] slot, and the page with the
    [TargetCursor] it mounts. *)
Record AppState := {
  screen : ScreenName;
  cursor : TargetCursor.Controller
}.

(** A click handler acts on the state of the mounted application. *)
Definition Handler := AppState -> AppState.

(** Rendered output, as far as the code and its checks look at it: elements
    with an optional [data-testid], buttons with their text and handler, and
    markup that carries neither. *)
#[warnings="-register-all"]
Inductive Node :=
| Static
| Div (testid : option string) (children : list Node)
| Button (testid : option string) (text : string) (onClick : Handler).

(** [cond && <X />] in a child position: nothing is rendered when [cond] is
    false. *)
Definition when (cond : bool) (n : Node) : list Node := if cond then [n] else [].

Fixpoint testids (n : Node) : list string :=
  match n with
  | Static => []
  | Div t cs => option_list t ++ flat_map testids cs
  | Button t _ _ => option_list t
  end.

Fixpoint buttons (n : Node) : list (option string * string * Handler) :=
  match n with
  | Static => []
  | Div _ cs => flat_map buttons cs
  | Button t txt h => [(t, txt, h)]
  end.

(** [document.querySelector('[data-testid=...]')] on a button: its handler,
    when such a button is in the tree. *)
Definition query_button (tid : string) (n : Node) : option Handler :=
  snd <$> head (filter (fun b => b.1.1 = Some tid) (buttons n)).

Definition screen_ids : list string :=
  ["screen-home"; "screen-shop"; "screen-save"; "screen-invest"].

(** The screen views present in a tree. *)
Definition screen_views (n : Node) : list string :=
  filter (fun t => t ∈ screen_ids) (testids n).

Definition HomeScreen (onNav : ScreenName -> Handler) : Node :=
  Div (Some "screen-home")
    [ Static; Static;
      Div None [ Button (Some "nav-shop") "Shop" (onNav shop);
                 Button (Some "nav-save") "Save" (onNav save);
                 Button (Some "nav-invest") "Invest" (onNav invest) ];
      Static; Static ].

Definition ShopScreen (onBack : Handler) : Node :=
  Div (Some "screen-shop") [ Static; Static; Static; Button (Some "back-btn") "Späť" onBack ].

Definition SaveScreen (onBack : Handler) : Node :=
  Div (Some "screen-save") [ Static; Static; Static; Button (Some "back-btn") "Späť" onBack ].

Definition InvestScreen (onBack : Handler) : Node :=
  Div (Some "screen-invest") [ Static; Static; Static; Button (Some "back-btn") "Späť" onBack ].

(** [Section]: a heading above its children. *)
Definition Section_ (children : list Node) : Node :=
  Div None [ Static; Div None children ].

Definition PhoneMockup (screen : ScreenName) (setScreen : ScreenName -> Handler) : Node :=
  Div (Some "phone")
    ([ Static ]
     ++ when (bool_decide (screen = home)) (HomeScreen setScreen)
     ++ when (bool_decide (screen = shop)) (ShopScreen (setScreen home))
     ++ when (bool_decide (screen = save)) (SaveScreen (setScreen home))
     ++ when (bool_decide (screen = invest)) (InvestScreen (setScreen home))).

Module App.

(** [<TargetCursor spinDuration={2} hideDefaultCursor={true} />] *)
Definition cursor_props : Props := {| spinDuration := 2; hideDefaultCursor := true |}.

(** The setter of [useState]: the slot takes the new value and [App]
    renders again, handing [TargetCursor] the same props. *)
Definition setScreen (t : ScreenName) : Handler := fun st =>
  {| screen := t;
     cursor := TargetCursor.step (cursor st) (TargetCursor.Update cursor_props) |}.

Definition render (st : AppState) : Node :=
  Div None
    [ Static; Static;
      Section_ [ Static ]; Section_ [ Static ]; Section_ [ Static ];
      Section_ [ Static ]; Section_ [ Static ];
      Section_ [ Div None [ PhoneMockup (screen st) setScreen; Static ] ];
      Section_ [ Static ] ].

(** First render and commit: [useState('home')], and [TargetCursor]'s
    effect runs with the refs attached to [cursorEl] and [dotEl]. *)
Definition first_commit (page : TargetCursor.Controller) (cursorEl dotEl : option Elem)
  : AppState :=
  {| screen := home;
     cursor := TargetCursor.step page (TargetCursor.Mount cursor_props cursorEl dotEl) |}.

(** The checks of [App]'s own effect, run once after the first commit.  All
    of its queries read the committed tree: a state update requested while
    React runs an effect is rendered only after the effect has returned.  So
    a [click()] here calls the button's handler, whose [setScreen] is queued,
    and the tree the next query reads is still the same.  The result: what the
    four [console.assert] calls were given, in order, and the queued
    handlers. *)
Definition mount_effect (st : AppState) : list bool * list Handler :=
  let dom := render st in
  let test1 := bool_decide ("phone" ∈ testids dom) in
  let test2 := bool_decide ("screen-home" ∈ testids dom) in
  let investBtn := query_button "nav-invest" dom in
  let queued1 := option_list investBtn in
  let sawInvest := bool_decide ("screen-invest" ∈ testids dom) in
  let backBtn := query_button "back-btn" dom in
  let queued2 := option_list backBtn in
  let test4 := bool_decide ("screen-home" ∈ testids dom) in
  ([test1; test2; sawInvest; test4], queued1 ++ queued2).

(** The queued updates, applied in the order they were requested. *)
Definition flush (queued : list Handler) (st : AppState) : AppState :=
  foldl (fun acc h => h acc) st queued.

(** Mounting: the first commit, the mount effect, and the render of what the
    effect queued. *)
Definition mount (page : TargetCursor.Controller) (cursorEl dotEl : option Elem) : AppState :=
  let st := first_commit page cursorEl dotEl in
  flush (mount_effect st).2 st.

(** Unmounting leaves the page behind; the [screen] slot is discarded. *)
Definition unmount (st : AppState) : TargetCursor.Controller :=
  TargetCursor.step (cursor st) TargetCursor.Unmount.

(** A sequence of [setScreen] calls. *)
Definition navigate_all (st : AppState) (ts : list ScreenName) : AppState :=
  foldl (fun acc t => setScreen t acc) st ts.

(** The states a click on some rendered control leads to. *)
Definition clicks (st : AppState) : list AppState :=
  (fun b => b.2 st) <$> buttons (render st).

(** What the application goes through between mounts. *)
Inductive Event :=
| Click (tid : string)
| Navigate (t : ScreenName)
| Mouse (e : MouseEvent).

Definition step (st : AppState) (e : Event) : AppState :=
  match e with
  | Click tid =>
      match query_button tid (render st) with
      | Some h => h st
      | None => st
      end
  | Navigate t => setScreen t st
  | Mouse ev =>
      {| screen := screen st;
         cursor := TargetCursor.step (cursor st) (TargetCursor.Pointer ev) |}
  end.

Definition run (st : AppState) (es : list Event) : AppState := foldl step st es.

End App.

(** ** The reduced App (src/unnamed/part_000): screens behind a button bar *)

Module ReducedApp.

Definition setScreen (t : ScreenName) : Handler := fun st =>
  {| screen := t; cursor := cursor st |}.

Definition render (st : AppState) : Node :=
  Div None
    [ Static; Static;
      Div None
        (when (bool_decide (screen st = home)) (Div None [])
         ++ when (bool_decide (screen st = shop)) (Div None [])
         ++ when (bool_decide (screen st = save)) (Div None [])
         ++ when (bool_decide (screen st = invest)) (Div None [])
         ++ [ Div None [ Button None "Home" (setScreen home);
                         Button None "Shop" (setScreen shop);
                         Button None "Save" (setScreen save);
                         Button None "Invest" (setScreen invest) ] ]) ].

Definition clicks (st : AppState) : list AppState :=
  (fun b => b.2 st) <$> buttons (render st).

End ReducedApp.

(** The star around Home: the centre reaches the three leaves, and each leaf
    reaches the centre only. *)
Definition star (s t : ScreenName) : bool :=
  match s, t with
  | home, shop | home, save | home, invest => true
  | shop, home | save, home | invest, home => true
  | _, _ => false
  end.

(** * Vocabulary of the statements *)

(** [w'] differs from [w] in the gsap call log at most. *)
Definition calls_only (w w' : World) : Prop :=
  body_cursor w' = body_cursor w /\ cursor_writes w' = cursor_writes w /\
  innerWidth w' = innerWidth w /\ innerHeight w' = innerHeight w /\
  cursorRef w' = cursorRef w /\ dotRef w' = dotRef w /\ spinTl w' = spinTl w /\
  timelines w' = timelines w /\ listeners w' = listeners w /\ runs w' = runs w.

Definition dispatch_all (es : list MouseEvent) (w : World) : World :=
  foldl (fun acc e => TargetCursor.dispatch e acc) w es.

(** Rotation during one pass of a timeline, at local time [t], for an
    element whose rotation was [start] when the pass began: the timeline's
    leading tween decides it. *)
Definition rotation_in_pass (tl : Timeline) (start t : Q) : Q :=
  match tl_tweens tl with
  | (_, v) :: _ =>
      match rotation v with
      | Some target => tween_at start target v t
      | None => start
      end
  | [] => start
  end.

Definition mouse_listeners (r : nat) : list (EventType * Listener) :=
  [(mousemove, MoveHandler r); (mousedown, MouseDownHandler r); (mouseup, MouseUpHandler r)].

(** The events whose props, if any, leave the native cursor visible. *)
Definition shows_cursor (e : TargetCursor.Event) : bool :=
  match e with
  | TargetCursor.Mount p _ _ | TargetCursor.Update p => negb (hideDefaultCursor p)
  | _ => true
  end.

(** The native cursor's style has the value [b], every pending cleanup has
    captured [b], and everything assigned since the writes [cw] is [b]. *)
Definition cursor_kept (b : string) (cw : list string) (c : TargetCursor.Controller) : Prop :=
  body_cursor (TargetCursor.world c) = b /\
  (forall p o r, TargetCursor.active c = Some (p, CleanupFull o r) -> o = b) /\
  exists n, cursor_writes (TargetCursor.world c) = cw ++ replicate n b.

(** Either no timeline runs, or exactly one does: the one in
    [spinTl.current], and the cleanup that will kill it is pending. *)
Definition spin_inv (c : TargetCursor.Controller) : Prop :=
  let w := TargetCursor.world c in
  live_timelines w = 0%nat \/
  (live_timelines w = 1%nat /\
   exists i tl p o r,
     spinTl w = Some i /\ timelines w !! i = Some tl /\ alive tl = true /\
     TargetCursor.active c = Some (p, CleanupFull o r)).

Definition view_id (s : ScreenName) : string :=
  match s with
  | home => "screen-home"
  | shop => "screen-shop"
  | save => "screen-save"
  | invest => "screen-invest"
  end.

(** [TargetCursor] is mounted with the props [App] gives it. *)
Definition cursor_mounted (st : AppState) : Prop :=
  exists cl, TargetCursor.active (cursor st) = Some (App.cursor_props, cl).

(** None of the handlers the next effect run will create is registered
    yet. *)
Definition fresh_handlers (w : World) : Prop :=
  forall tl, tl ∈ mouse_listeners (runs w) -> tl ∉ listeners w.

(** The events that put an element behind [cursorRef], if they set it. *)
Definition elements_present (e : TargetCursor.Event) : bool :=
  match e with
  | TargetCursor.Mount _ ce _ | TargetCursor.Attach ce _ => bool_decide (is_Some ce)
  | _ => true
  end.

(** The listener table of a controller: the handlers of the run whose full
    cleanup is pending, and nothing otherwise. *)
Definition listeners_of (c : TargetCursor.Controller) : list (EventType * Listener) :=
  match TargetCursor.active c with
  | Some (_, CleanupFull _ r) => mouse_listeners r
  | _ => []
  end.

Definition is_mouse (e : App.Event) : bool :=
  match e with
  | App.Mouse _ => true
  | _ => false
  end.

(** Mounted with hideDefaultCursor = true, the cursor style is ['none']. *)
Definition hidden_if_asked (c : TargetCursor.Controller) : Prop :=
  forall p cl, TargetCursor.active c = Some (p, cl) -> hideDefaultCursor p = true ->
               body_cursor (TargetCursor.world c) = "none".

(** The cursor style is held the way a scoped override holds it: [b] when
    the component is not mounted; while it is mounted, ['none'] or [b] as
    the props say, with [b] captured by a full pending cleanup and an element
    behind [cursorRef]. *)
Definition cursor_scoped (b : string) (c : TargetCursor.Controller) : Prop :=
  match TargetCursor.active c with
  | None => body_cursor (TargetCursor.world c) = b
  | Some (p, cl) =>
      body_cursor (TargetCursor.world c) = (if hideDefaultCursor p then "none" else b) /\
      (exists r, cl = CleanupFull b r) /\
      is_Some (cursorRef (TargetCursor.world c))
  end.


(** The test ids of the controls the screens render. *)
Definition control_ids : list string := ["nav-shop"; "nav-save"; "nav-invest"; "back-btn"].

(** The pointer events among the application's events, as the cursor
    controller receives them. *)
Definition pointer_events (es : list App.Event) : list TargetCursor.Event :=
  omap (fun e => match e with
                 | App.Mouse ev => Some (TargetCursor.Pointer ev)
                 | _ => None
                 end) es.

(** The gsap calls one pointer event leads to while the three handlers of
    a run are the listeners, with [c] behind [cursorRef] and [d], if any,
    behind [dotRef]: the position tween of [moveCursor], or the two scale
    tweens of the press and release handlers, the dot's first. *)
Definition event_tweens (c : Elem) (d : option Elem) (e : MouseEvent) : list Call :=
  match ev_type e, d with
  | mousemove, _ =>
      [CTo c {| xPercent := None; yPercent := None;
                x := Some (clientX e); y := Some (clientY e); scale := None;
                rotation := None; duration := Some 0.1%Q; ease := Some EasePower3Out |}]
  | mousedown, Some d => [CTo d (scale_vars 0.8 0.15); CTo c (scale_vars 0.95 0.15)]
  | mouseup, Some d => [CTo d (scale_vars 1 0.15); CTo c (scale_vars 1 0.15)]
  | _, None => []
  end.

(** ** Sample pages, events and props *)

(** A page whose body has no inline cursor style, before any mount. *)
Definition page0 : TargetCursor.Controller := TargetCursor.fresh "" 1280 720.

Definition page1 : World := set_refs (Some 1%nat) (Some 2%nat) None (TargetCursor.world page0).

(** The page with an element behind [cursorRef] and none behind [dotRef]. *)
Definition page_without_dot : World :=
  set_refs (Some 1%nat) None None (TargetCursor.world page0).

Definition press : MouseEvent := {| ev_type := mousedown; clientX := 10; clientY := 20 |}.
Definition release : MouseEvent := {| ev_type := mouseup; clientX := 10; clientY := 20 |}.
Definition move : MouseEvent := {| ev_type := mousemove; clientX := 30; clientY := 40 |}.

Definition visible_props : Props := {| spinDuration := 2; hideDefaultCursor := false |}.

Definition slow_props : Props := {| spinDuration := 5; hideDefaultCursor := true |}.

Definition at_shop : AppState := {| screen := shop; cursor := page0 |}.

(** * Properties *)

(** ** What the page operations leave alone *)

Lemma calls_only_refl w : calls_only w w.
Proof. repeat split. Qed.

Lemma calls_only_trans w1 w2 w3 :
  calls_only w1 w2 -> calls_only w2 w3 -> calls_only w1 w3.
Proof. unfold calls_only. intuition congruence. Qed.

Lemma calls_only_gsap_call c w : calls_only w (gsap_call c w).
Proof. repeat split. Qed.

Create HintDb world.
#[local] Hint Resolve calls_only_refl calls_only_gsap_call : world.

Section ListenerFrame.
Variables (t : EventType) (l : Listener) (w : World).

Lemma add_body_cursor : body_cursor (addEventListener t l w) = body_cursor w.
Proof. unfold addEventListener. case_bool_decide; reflexivity. Qed.
Lemma add_cursor_writes : cursor_writes (addEventListener t l w) = cursor_writes w.
Proof. unfold addEventListener. case_bool_decide; reflexivity. Qed.
Lemma add_cursorRef : cursorRef (addEventListener t l w) = cursorRef w.
Proof. unfold addEventListener. case_bool_decide; reflexivity. Qed.
Lemma add_dotRef : dotRef (addEventListener t l w) = dotRef w.
Proof. unfold addEventListener. case_bool_decide; reflexivity. Qed.
Lemma add_spinTl : spinTl (addEventListener t l w) = spinTl w.
Proof. unfold addEventListener. case_bool_decide; reflexivity. Qed.
Lemma add_timelines : timelines (addEventListener t l w) = timelines w.
Proof. unfold addEventListener. case_bool_decide; reflexivity. Qed.
Lemma add_calls : calls (addEventListener t l w) = calls w.
Proof. unfold addEventListener. case_bool_decide; reflexivity. Qed.
Lemma add_runs : runs (addEventListener t l w) = runs w.
Proof. unfold addEventListener. case_bool_decide; reflexivity. Qed.
End ListenerFrame.

Section KillFrame.
Variable w : World.

Lemma kill_body_cursor : body_cursor (kill_spin w) = body_cursor w.
Proof. unfold kill_spin. destruct (spinTl w); reflexivity. Qed.
Lemma kill_cursor_writes : cursor_writes (kill_spin w) = cursor_writes w.
Proof. unfold kill_spin. destruct (spinTl w); reflexivity. Qed.
Lemma kill_cursorRef : cursorRef (kill_spin w) = cursorRef w.
Proof. unfold kill_spin. destruct (spinTl w); reflexivity. Qed.
Lemma kill_dotRef : dotRef (kill_spin w) = dotRef w.
Proof. unfold kill_spin. destruct (spinTl w); reflexivity. Qed.
Lemma kill_spinTl : spinTl (kill_spin w) = spinTl w.
Proof. unfold kill_spin. destruct (spinTl w) eqn:E; cbn; congruence. Qed.
Lemma kill_listeners : listeners (kill_spin w) = listeners w.
Proof. unfold kill_spin. destruct (spinTl w); reflexivity. Qed.
Lemma kill_calls : calls (kill_spin w) = calls w.
Proof. unfold kill_spin. destruct (spinTl w); reflexivity. Qed.
Lemma kill_runs : runs (kill_spin w) = runs w.
Proof. unfold kill_spin. destruct (spinTl w); reflexivity. Qed.
Lemma kill_timelines :
  timelines (kill_spin w) =
  match spinTl w with Some i => alter kill i (timelines w) | None => timelines w end.
Proof. unfold kill_spin. destruct (spinTl w); reflexivity. Qed.
End KillFrame.

Ltac world_simpl :=
  repeat (cbn [body_cursor cursor_writes innerWidth innerHeight cursorRef dotRef spinTl
               timelines listeners calls runs set_body_cursor gsap_call set_timelines
               set_listeners set_refs next_run new_spin removeEventListener fst snd] in *
          || rewrite ?add_body_cursor, ?add_cursor_writes, ?add_cursorRef, ?add_dotRef,
                     ?add_spinTl, ?add_timelines, ?add_calls, ?add_runs,
                     ?kill_body_cursor, ?kill_cursor_writes, ?kill_cursorRef, ?kill_dotRef,
                     ?kill_spinTl, ?kill_listeners, ?kill_calls, ?kill_runs in * ).

(** ** The handlers only ask gsap for tweens *)

Lemma moveCursor_calls_only px py w : calls_only w (moveCursor px py w).
Proof. unfold moveCursor. destruct (cursorRef w); auto with world. Qed.

Lemma mouseDownHandler_calls_only w : calls_only w (TargetCursor.mouseDownHandler w).
Proof.
  unfold TargetCursor.mouseDownHandler.
  destruct (dotRef w), (cursorRef w); auto with world.
  eapply calls_only_trans; auto with world.
Qed.

Lemma mouseUpHandler_calls_only w : calls_only w (TargetCursor.mouseUpHandler w).
Proof.
  unfold TargetCursor.mouseUpHandler.
  destruct (dotRef w), (cursorRef w); auto with world.
  eapply calls_only_trans; auto with world.
Qed.

Lemma call_listener_calls_only l e w : calls_only w (TargetCursor.call_listener l e w).
Proof.
  destruct l; cbn;
    auto using moveCursor_calls_only, mouseDownHandler_calls_only, mouseUpHandler_calls_only.
Qed.

Lemma dispatch_calls_only e w : calls_only w (TargetCursor.dispatch e w).
Proof.
  unfold TargetCursor.dispatch. generalize (listeners w) as ls.
  intros ls. revert w. induction ls as [|tl ls IH]; intros w; cbn.
  - apply calls_only_refl.
  - case_bool_decide.
    + eapply calls_only_trans; [apply call_listener_calls_only | apply IH].
    + apply IH.
Qed.

Lemma dispatch_all_calls_only es w : calls_only w (dispatch_all es w).
Proof.
  unfold dispatch_all. revert w. induction es as [|e es IH]; intros w; cbn.
  - apply calls_only_refl.
  - eapply calls_only_trans; [apply dispatch_calls_only | apply IH].
Qed.

(** ** One run of the effect *)

Lemma cursorRef_hide p w :
  cursorRef (if hideDefaultCursor p then set_body_cursor "none" w else w) = cursorRef w.
Proof. destruct (hideDefaultCursor p); reflexivity. Qed.

Lemma effect_interrupted p w :
  cursorRef w = None ->
  TargetCursor.effect p w =
  (if hideDefaultCursor p then set_body_cursor "none" w else w, CleanupVoid).
Proof.
  intros H. unfold TargetCursor.effect. rewrite cursorRef_hide, H. reflexivity.
Qed.

Lemma length_alter_kill i (l : list Timeline) : length (alter kill i l) = length l.
Proof. apply length_alter. Qed.

Lemma effect_completed p w c w' cl :
  cursorRef w = Some c ->
  TargetCursor.effect p w = (w', cl) ->
  cl = CleanupFull (body_cursor w) (runs w) /\
  body_cursor w' = (if hideDefaultCursor p then "none" else body_cursor w) /\
  cursor_writes w' = cursor_writes w ++ (if hideDefaultCursor p then ["none"] else []) /\
  timelines w' = timelines (kill_spin w) ++ [spin_timeline c (spinDuration p)] /\
  spinTl w' = Some (length (timelines w)) /\
  calls w' = calls w ++ [CSet c (center_vars w)] /\
  cursorRef w' = Some c /\ dotRef w' = dotRef w.
Proof.
  intros H E. unfold TargetCursor.effect in E. rewrite cursorRef_hide, H in E.
  injection E as <- <-.
  destruct (hideDefaultCursor p); world_simpl;
    rewrite ?kill_timelines; world_simpl;
    (repeat split; try reflexivity; try assumption;
     try (rewrite app_nil_r; reflexivity);
     destruct (spinTl w); rewrite ?length_alter_kill; reflexivity).
Qed.

(** The timeline the effect creates is the last one gsap handed out, and
    [spinTl.current] points at it. *)
Lemma effect_replaces_spin_index p w c w' cl :
  cursorRef w = Some c ->
  TargetCursor.effect p w = (w', cl) ->
  spinTl w' = Some (length (timelines w)) /\
  timelines w' !! length (timelines w) = Some (spin_timeline c (spinDuration p)).
Proof.
  intros Hc E.
  destruct (effect_completed _ _ _ _ _ Hc E) as (_ & _ & _ & Ht & Hs & _).
  split; [exact Hs|]. rewrite Ht.
  assert (Hlen : length (timelines (kill_spin w)) = length (timelines w)).
  { rewrite kill_timelines. destruct (spinTl w); [apply length_alter|reflexivity]. }
  rewrite lookup_app_r by lia. rewrite Hlen, Nat.sub_diag. reflexivity.
Qed.

Lemma run_cleanup_full o r w :
  body_cursor (TargetCursor.run_cleanup (CleanupFull o r) w) = o /\
  cursor_writes (TargetCursor.run_cleanup (CleanupFull o r) w) = cursor_writes w ++ [o] /\
  timelines (TargetCursor.run_cleanup (CleanupFull o r) w) = timelines (kill_spin w) /\
  spinTl (TargetCursor.run_cleanup (CleanupFull o r) w) = spinTl w /\
  cursorRef (TargetCursor.run_cleanup (CleanupFull o r) w) = cursorRef w /\
  dotRef (TargetCursor.run_cleanup (CleanupFull o r) w) = dotRef w /\
  calls (TargetCursor.run_cleanup (CleanupFull o r) w) = calls w.
Proof.
  unfold TargetCursor.run_cleanup. world_simpl. rewrite !kill_timelines. world_simpl.
  repeat split; reflexivity.
Qed.

(** ** Invariants along the component's life *)

Section RunInvariant.
Variable Inv : TargetCursor.Controller -> Prop.
Variable ok : TargetCursor.Event -> bool.
Hypothesis preserve : forall c e, Inv c -> ok e = true -> Inv (TargetCursor.step c e).

Lemma run_invariant es c :
  Inv c -> forallb ok es = true -> Inv (TargetCursor.run c es).
Proof.
  revert c. induction es as [|e es IH]; intros c Hc Hok; cbn in *.
  - exact Hc.
  - apply andb_prop in Hok as [He Hes]. apply IH; auto.
Qed.
End RunInvariant.

(** ** Restoring the native cursor *)

(** When the effect ran to its end, its cleanup puts back the value the
    effect found, whatever pointer events came in between. *)
Lemma completed_run_restores p w c w' cl es :
  cursorRef w = Some c ->
  TargetCursor.effect p w = (w', cl) ->
  body_cursor
    (TargetCursor.run_cleanup cl (dispatch_all es w'))
  = body_cursor w.
Proof.
  intros H E. destruct (effect_completed _ _ _ _ _ H E) as (-> & _).
  apply run_cleanup_full.
Qed.

(** When the indicator's element was missing, the effect has already hidden
    the cursor and the function it returns puts nothing back. *)
Lemma interrupted_run_keeps_hidden p w es :
  cursorRef w = None -> hideDefaultCursor p = true ->
  let '(w', cl) := TargetCursor.effect p w in
  body_cursor
    (TargetCursor.run_cleanup cl (dispatch_all es w'))
  = "none".
Proof.
  intros H Hh. rewrite (effect_interrupted _ _ H), Hh. cbn [TargetCursor.run_cleanup].
  destruct (dispatch_all_calls_only es (set_body_cursor "none" w)) as (-> & _).
  reflexivity.
Qed.

(** C1. The claim: after any mount followed by the unmount, with
    hideDefaultCursor = true, document.body.style.cursor is again what it was
    before the mount, also when the indicator's element was missing at
    activation.  The code at that input: mounted on [page0] (cursor style
    [""]) with the default props and no element behind [cursorRef], then
    unmounted, it leaves the style at ["none"]; the only value ever assigned
    is ["none"]. *)
Theorem interrupted_mount_leaves_cursor_hidden :
  let c := TargetCursor.run page0
             [TargetCursor.Mount default_props None None; TargetCursor.Unmount] in
  body_cursor (TargetCursor.world page0) = "" /\
  body_cursor (TargetCursor.world c) = "none" /\
  cursor_writes (TargetCursor.world c) = ["none"] /\
  TargetCursor.active c = None.
Proof. vm_compute. repeat split. Qed.

(** ** The missing element *)

(** C6. With nothing behind [cursorRef] the effect returns at the guard: the
    result is the incoming page, with at most the cursor style hidden, and
    the empty cleanup.  No gsap call is made, no timeline is created or
    killed, [spinTl] is not assigned and window gets no listener.  The effect
    is a total function: there is no failing outcome to report. *)
Theorem effect_without_element_sets_up_nothing p w :
  cursorRef w = None ->
  exists w',
    TargetCursor.effect p w = (w', CleanupVoid) /\
    w' = (if hideDefaultCursor p then set_body_cursor "none" w else w) /\
    calls w' = calls w /\
    timelines w' = timelines w /\
    spinTl w' = spinTl w /\
    listeners w' = listeners w /\
    TargetCursor.run_cleanup CleanupVoid w' = w'.
Proof.
  intros H. eexists. split; [apply (effect_interrupted _ _ H)|].
  destruct (hideDefaultCursor p); repeat split.
Qed.

Lemma effect_without_element_sets_up_nothing_witness :
  exists w',
    TargetCursor.effect default_props (TargetCursor.world page0) = (w', CleanupVoid) /\
    w' = set_body_cursor "none" (TargetCursor.world page0) /\
    calls w' = [] /\ timelines w' = [] /\ spinTl w' = None /\ listeners w' = [] /\
    TargetCursor.run_cleanup CleanupVoid w' = w'.
Proof.
  exact (effect_without_element_sets_up_nothing default_props (TargetCursor.world page0)
           eq_refl).
Defined.

(** ** hideDefaultCursor = false *)

Lemma effect_shows p w w' cl :
  hideDefaultCursor p = false ->
  TargetCursor.effect p w = (w', cl) ->
  body_cursor w' = body_cursor w /\ cursor_writes w' = cursor_writes w /\
  (forall o r, cl = CleanupFull o r -> o = body_cursor w).
Proof.
  intros Hh E. destruct (cursorRef w) as [c|] eqn:Hc.
  - destruct (effect_completed _ _ _ _ _ Hc E) as (-> & Hb & Hw & _).
    rewrite Hh in Hb, Hw. rewrite app_nil_r in Hw.
    repeat split; auto. intros o r [= <- _]. reflexivity.
  - rewrite (effect_interrupted _ _ Hc), Hh in E. injection E as <- <-.
    repeat split. discriminate.
Qed.

Lemma cleanup_of_captured cl w :
  (forall o r, cl = CleanupFull o r -> o = body_cursor w) ->
  body_cursor (TargetCursor.run_cleanup cl w) = body_cursor w /\
  exists k, cursor_writes (TargetCursor.run_cleanup cl w)
            = cursor_writes w ++ replicate k (body_cursor w).
Proof.
  intros H. destruct cl as [|o r].
  - split; [reflexivity|]. exists 0%nat. cbn. by rewrite app_nil_r.
  - destruct (run_cleanup_full o r w) as (Hb & Hw & _).
    rewrite Hb, Hw, (H o r eq_refl). split; [reflexivity|]. by exists 1%nat.
Qed.

Lemma cursor_kept_more b cw w k :
  (exists n, cursor_writes w = cw ++ replicate n b) ->
  exists n, cursor_writes w ++ replicate k b = cw ++ replicate n b.
Proof.
  intros [n ->]. exists (n + k)%nat. by rewrite replicate_add, app_assoc.
Qed.

Lemma cursor_kept_step b cw c e :
  cursor_kept b cw c -> shows_cursor e = true ->
  cursor_kept b cw (TargetCursor.step c e).
Proof.
  intros (Hb & Hcl & Hw) He. unfold TargetCursor.step.
  assert (Hsame : cursor_kept b cw c) by (repeat split; assumption).
  destruct e as [p ce de|q| |ce de|ev]; destruct (TargetCursor.active c) as [[p0 cl]|] eqn:Ha;
    cbn in He; try apply negb_true_iff in He; try exact Hsame.
  - (* Mount *)
    destruct (TargetCursor.effect _ _) as [w' cl'] eqn:E.
    destruct (effect_shows _ _ _ _ He E) as (Hb' & Hw' & Hc'). cbn in Hb', Hw', Hc'.
    split; [cbn; congruence|]. split; [|cbn; by rewrite Hw'].
    cbn. intros ? o r [= _ ->]. rewrite (Hc' o r eq_refl). exact Hb.
  - (* Update *)
    destruct (TargetCursor.deps_same p0 q).
    + split; [exact Hb|]. split; [|exact Hw]. cbn. intros ? o r [= _ ->]. eauto.
    + destruct (cleanup_of_captured cl (TargetCursor.world c)) as (Hb1 & k & Hw1).
      { intros o r ->. rewrite Hb. eauto. }
      destruct (TargetCursor.effect _ _) as [w' cl'] eqn:E.
      destruct (effect_shows _ _ _ _ He E) as (Hb' & Hw' & Hc').
      split; [cbn; congruence|]. split.
      * cbn. intros ? o r [= _ ->]. rewrite (Hc' o r eq_refl). congruence.
      * cbn. rewrite Hw', Hw1, Hb. by apply cursor_kept_more.
  - (* Unmount *)
    destruct (cleanup_of_captured cl (TargetCursor.world c)) as (Hb1 & k & Hw1).
    { intros o r ->. rewrite Hb. eauto. }
    split; [cbn; congruence|]. split; [cbn; discriminate|].
    cbn. rewrite Hw1, Hb. by apply cursor_kept_more.
  - (* Attach *)
    split; [exact Hb|]. split; [|exact Hw]. cbn. exact Hcl.
  - (* Pointer, mounted *)
    destruct (dispatch_calls_only ev (TargetCursor.world c)) as (Hb' & Hw' & _).
    split; [cbn; congruence|]. split; [|cbn; by rewrite Hw'].
    cbn. exact Hcl.
  - (* Pointer, not mounted *)
    destruct (dispatch_calls_only ev (TargetCursor.world c)) as (Hb' & Hw' & _).
    split; [cbn; congruence|]. split; [cbn; discriminate|]. cbn. by rewrite Hw'.
Qed.

Lemma run_pointers evs : forall c,
  TargetCursor.run c (TargetCursor.Pointer <$> evs)
  = {| TargetCursor.world := dispatch_all evs (TargetCursor.world c);
       TargetCursor.active := TargetCursor.active c |}.
Proof.
  induction evs as [|e evs IH]; intros [w a]; [reflexivity|].
  cbn. unfold TargetCursor.run in IH. rewrite IH. reflexivity.
Qed.

(** One mount, pointer events, unmount: the writes to the cursor style. *)
Lemma single_life_writes c0 p ce de evs :
  TargetCursor.active c0 = None -> hideDefaultCursor p = false ->
  cursor_writes
    (TargetCursor.world
       (TargetCursor.run c0
          (TargetCursor.Mount p ce de :: (TargetCursor.Pointer <$> evs)
           ++ [TargetCursor.Unmount])))
  = cursor_writes (TargetCursor.world c0)
    ++ match ce with Some _ => [body_cursor (TargetCursor.world c0)] | None => [] end.
Proof.
  intros Ha Hh. destruct c0 as [w0 a0]. cbn in Ha. subst a0.
  unfold TargetCursor.run. cbn [foldl TargetCursor.step TargetCursor.active TargetCursor.world].
  rewrite foldl_app.
  destruct ce as [c|].
  - destruct (TargetCursor.effect p (set_refs (Some c) de None w0)) as [w' cl] eqn:E.
    destruct (effect_completed p (set_refs (Some c) de None w0) c w' cl eq_refl E)
      as (-> & _ & Hw & _).
    rewrite Hh, app_nil_r in Hw. cbn in Hw.
    fold (TargetCursor.run {| TargetCursor.world := w'; TargetCursor.active :=
            Some (p, CleanupFull (body_cursor w0) (runs w0)) |} (TargetCursor.Pointer <$> evs)).
    rewrite run_pointers. cbn.
    world_simpl. destruct (dispatch_all_calls_only evs w') as (_ & -> & _). by rewrite Hw.
  - rewrite effect_interrupted by reflexivity. rewrite Hh.
    fold (TargetCursor.run {| TargetCursor.world := set_refs None de None w0;
            TargetCursor.active := Some (p, CleanupVoid) |} (TargetCursor.Pointer <$> evs)).
    rewrite run_pointers. cbn.
    destruct (dispatch_all_calls_only evs (set_refs None de None w0)) as (_ & -> & _).
    cbn. by rewrite app_nil_r.
Qed.

(** C10. Take a page on which the component is not mounted and any life of
    the component on it (mounts, prop updates, ref changes, pointer events,
    unmounts) in which every mount and update has hideDefaultCursor = false.
    After each event of that life, document.body.style.cursor has the value
    it had at the start, and every value assigned to it along the way is that
    same value: ['none'] is never put there by the component.  For one mount
    with such props, pointer events and the unmount, the writes are the single
    write of the captured value by the cleanup, or none at all when the
    indicator's element was missing. *)
Theorem visible_cursor_is_never_changed c0 es rest p ce de evs :
  TargetCursor.active c0 = None ->
  forallb shows_cursor (es ++ rest) = true ->
  hideDefaultCursor p = false ->
  body_cursor (TargetCursor.world (TargetCursor.run c0 es))
  = body_cursor (TargetCursor.world c0) /\
  (exists n, cursor_writes (TargetCursor.world (TargetCursor.run c0 es))
             = cursor_writes (TargetCursor.world c0)
               ++ replicate n (body_cursor (TargetCursor.world c0))) /\
  cursor_writes
    (TargetCursor.world
       (TargetCursor.run c0
          (TargetCursor.Mount p ce de :: (TargetCursor.Pointer <$> evs)
           ++ [TargetCursor.Unmount])))
  = cursor_writes (TargetCursor.world c0)
    ++ match ce with Some _ => [body_cursor (TargetCursor.world c0)] | None => [] end.
Proof.
  intros Ha Hok Hh. rewrite forallb_app in Hok. apply andb_prop in Hok as [Hok _].
  assert (H : cursor_kept (body_cursor (TargetCursor.world c0))
                (cursor_writes (TargetCursor.world c0)) (TargetCursor.run c0 es)).
  { apply run_invariant with (ok := shows_cursor); auto using cursor_kept_step.
    split; [reflexivity|]. split; [rewrite Ha; discriminate|].
    exists 0%nat. cbn. by rewrite app_nil_r. }
  destruct H as (Hb & _ & Hw). split; [exact Hb|]. split; [exact Hw|].
  by apply single_life_writes.
Qed.

Lemma visible_cursor_is_never_changed_witness :
  let es := [TargetCursor.Mount visible_props (Some 1%nat) (Some 2%nat);
             TargetCursor.Pointer move; TargetCursor.Pointer press;
             TargetCursor.Unmount] in
  body_cursor (TargetCursor.world (TargetCursor.run page0 es)) = "" /\
  (exists n, cursor_writes (TargetCursor.world (TargetCursor.run page0 es))
             = [] ++ replicate n "") /\
  cursor_writes
    (TargetCursor.world
       (TargetCursor.run page0
          (TargetCursor.Mount visible_props (Some 1%nat) (Some 2%nat)
           :: (TargetCursor.Pointer <$> [move; press]) ++ [TargetCursor.Unmount])))
  = [] ++ [""].
Proof.
  exact (visible_cursor_is_never_changed page0
           [TargetCursor.Mount visible_props (Some 1%nat) (Some 2%nat);
            TargetCursor.Pointer move; TargetCursor.Pointer press;
            TargetCursor.Unmount] [] visible_props (Some 1%nat) (Some 2%nat)
           [move; press] eq_refl eq_refl eq_refl).
Defined.

(** ** At most one spin timeline *)

Lemma live_nil : live [] = 0%nat.
Proof. reflexivity. Qed.

Lemma live_cons tl l :
  live (tl :: l) = ((if alive tl then 1 else 0) + live l)%nat.
Proof.
  unfold live. rewrite filter_cons.
  destruct (alive tl) eqn:E; case_decide; try congruence; reflexivity.
Qed.

Lemma live_snoc l tl :
  live (l ++ [tl]) = (live l + (if alive tl then 1 else 0))%nat.
Proof.
  induction l as [|a l IH]; cbn [app].
  - rewrite live_cons, live_nil. lia.
  - rewrite !live_cons, IH. lia.
Qed.

Lemma alive_kill tl : alive (kill tl) = false.
Proof. reflexivity. Qed.

(** Killing the only timeline that may still run leaves none running. *)
Lemma live_alter_kill l : forall i,
  (forall j tl, l !! j = Some tl -> alive tl = true -> j = i) ->
  live (alter kill i l) = 0%nat.
Proof.
  induction l as [|a l IH]; intros i H; [reflexivity|].
  destruct i as [|i]; cbn [alter list_alter].
  - rewrite live_cons, alive_kill. cbn.
    assert (Hd : forall tl, tl ∈ l -> alive tl = false).
    { intros tl [j Hj]%list_elem_of_lookup. destruct (alive tl) eqn:Ht; [|reflexivity].
      specialize (H (S j) tl Hj Ht). discriminate. }
    clear -Hd.
    induction l as [|b l IHl]; [reflexivity|].
    rewrite live_cons, (Hd b) by (left). cbn. apply IHl. intros tl Htl. apply Hd. by right.
  - rewrite live_cons.
    assert (Ha : alive a = false).
    { destruct (alive a) eqn:Ht; [|reflexivity]. specialize (H 0%nat a eq_refl Ht). discriminate. }
    rewrite Ha. cbn. apply IH. intros j tl Hj Ht. specialize (H (S j) tl Hj Ht). congruence.
Qed.

Lemma live_alter_kill_zero l i : live l = 0%nat -> live (alter kill i l) = 0%nat.
Proof.
  revert i. induction l as [|a l IH]; intros i H; [reflexivity|].
  rewrite live_cons in H. destruct (alive a) eqn:Ha; [cbn in H; lia|]. cbn in H.
  destruct i as [|i]; cbn [alter list_alter]; rewrite live_cons.
  - rewrite alive_kill. cbn. exact H.
  - rewrite Ha. cbn. auto.
Qed.

Lemma live_one_at l : forall i tl,
  live l = 1%nat -> l !! i = Some tl -> alive tl = true ->
  forall j tl', l !! j = Some tl' -> alive tl' = true -> j = i.
Proof.
  induction l as [|a l IH]; intros i tl H Hi Ht j tl' Hj Ht'; [discriminate|].
  rewrite live_cons in H.
  assert (Hz : live l = 0%nat ->
               forall k x, l !! k = Some x -> alive x = true -> False).
  { clear. induction l as [|b l IHl]; intros Hl k x Hk Hx; [discriminate|].
    rewrite live_cons in Hl. destruct k as [|k]; cbn in Hk.
    - injection Hk as ->. rewrite Hx in Hl. cbn in Hl. lia.
    - apply (IHl ltac:(lia) k x Hk Hx). }
  destruct i as [|i], j as [|j]; cbn in Hi, Hj; try reflexivity.
  - injection Hi as ->. rewrite Ht in H. cbn in H. exfalso. eapply Hz; eauto; lia.
  - injection Hj as ->. rewrite Ht' in H. cbn in H. exfalso. eapply (Hz ltac:(lia) i tl); eauto.
  - f_equal. destruct (alive a).
    + exfalso. apply (Hz ltac:(cbn in H; lia) i tl Hi Ht).
    + cbn in H. eapply IH; eauto.
Qed.

Lemma kill_spin_quiet w : live_timelines w = 0%nat -> live_timelines (kill_spin w) = 0%nat.
Proof.
  unfold live_timelines. rewrite kill_timelines.
  destruct (spinTl w); auto using live_alter_kill_zero.
Qed.

(** The activation path on a page where only [spinTl.current] may still run:
    it is killed before the new timeline is stored, so one runs afterwards. *)
Lemma effect_replaces_spin p w c w' cl :
  cursorRef w = Some c ->
  (forall j tl, timelines w !! j = Some tl -> alive tl = true -> spinTl w = Some j) ->
  TargetCursor.effect p w = (w', cl) ->
  live_timelines w' = 1%nat /\
  spinTl w' = Some (length (timelines w)) /\
  timelines w' !! length (timelines w) = Some (spin_timeline c (spinDuration p)).
Proof.
  intros Hc Hall E.
  destruct (effect_completed _ _ _ _ _ Hc E) as (_ & _ & _ & Ht & Hs & _).
  assert (Hq : live (timelines (kill_spin w)) = 0%nat).
  { rewrite kill_timelines. destruct (spinTl w) as [i|] eqn:Hi.
    - apply live_alter_kill. intros j tl Hj Ha. specialize (Hall j tl Hj Ha). congruence.
    - destruct (live (timelines w)) eqn:Hl; [reflexivity|]. exfalso.
      unfold live in Hl.
      destruct (filter (λ tl, alive tl = true) (timelines w)) as [|tl ?] eqn:Hf; [discriminate|].
      assert (Hin : tl ∈ filter (λ tl, alive tl = true) (timelines w)) by (rewrite Hf; left).
      apply list_elem_of_filter in Hin as [Ha [j Hj]%list_elem_of_lookup].
      specialize (Hall j tl Hj Ha). discriminate. }
  assert (Hlen : length (timelines (kill_spin w)) = length (timelines w)).
  { rewrite kill_timelines. destruct (spinTl w); [apply length_alter|reflexivity]. }
  unfold live_timelines. rewrite Ht, live_snoc, Hq. repeat split; [exact Hs|].
  rewrite lookup_app_r by lia. rewrite Hlen, Nat.sub_diag. reflexivity.
Qed.

Lemma effect_from_quiet p w w' cl :
  live_timelines w = 0%nat ->
  TargetCursor.effect p w = (w', cl) ->
  (live_timelines w' = 0%nat /\ cl = CleanupVoid) \/
  (live_timelines w' = 1%nat /\
   exists i tl o r, spinTl w' = Some i /\ timelines w' !! i = Some tl /\
                    alive tl = true /\ cl = CleanupFull o r).
Proof.
  intros Hq E. destruct (cursorRef w) as [c|] eqn:Hc.
  - right. destruct (effect_completed _ _ _ _ _ Hc E) as (-> & _).
    destruct (effect_replaces_spin p w c w' (CleanupFull (body_cursor w) (runs w)) Hc)
      as (H1 & H2 & H3); [|exact E|].
    + intros j tl Hj Ha. exfalso. unfold live_timelines, live in Hq.
      apply nil_length_inv in Hq.
      eapply (filter_nil_not_elem_of _ _ tl Hq Ha), list_elem_of_lookup; eauto.
    + split; [exact H1|]. eauto 10.
  - left. rewrite (effect_interrupted _ _ Hc) in E. injection E as <- <-.
    split; [|reflexivity]. by destruct (hideDefaultCursor p).
Qed.

Lemma cleanup_quiets c p cl :
  spin_inv c -> TargetCursor.active c = Some (p, cl) ->
  live_timelines (TargetCursor.run_cleanup cl (TargetCursor.world c)) = 0%nat.
Proof.
  intros [Hq|(H1 & i & tl & p' & o & r & Hs & Hi & Ha & Hact)] Hc.
  - destruct cl as [|o r]; [exact Hq|].
    unfold live_timelines. destruct (run_cleanup_full o r (TargetCursor.world c)) as (_ & _ & -> & _).
    by apply kill_spin_quiet.
  - rewrite Hact in Hc. injection Hc as <- <-.
    unfold live_timelines. destruct (run_cleanup_full o r (TargetCursor.world c)) as (_ & _ & -> & _).
    rewrite kill_timelines, Hs. apply live_alter_kill.
    intros j tl' Hj Hj'. symmetry. eapply (live_one_at _ j tl'); eauto.
Qed.

Lemma spin_inv_of_effect p w w' cl :
  live_timelines w = 0%nat ->
  TargetCursor.effect p w = (w', cl) ->
  spin_inv {| TargetCursor.world := w'; TargetCursor.active := Some (p, cl) |}.
Proof.
  intros Hq E. destruct (effect_from_quiet _ _ _ _ Hq E) as [[H ->]|(H & i & tl & o & r & ? & ? & ? & ->)].
  - by left.
  - right. split; [exact H|]. exists i, tl, p, o, r. auto.
Qed.

Lemma spin_inv_step c e : spin_inv c -> spin_inv (TargetCursor.step c e).
Proof.
  intros Hinv. unfold TargetCursor.step.
  destruct e as [p ce de|q| |ce de|ev]; destruct (TargetCursor.active c) as [[p0 cl]|] eqn:Ha;
    try exact Hinv.
  - (* Mount *)
    destruct (TargetCursor.effect _ _) as [w' cl'] eqn:E.
    refine (spin_inv_of_effect _ _ _ _ _ E).
    destruct Hinv as [Hq|(_ & ? & ? & ? & ? & ? & _ & _ & _ & Hact)]; [exact Hq|congruence].
  - (* Update *)
    destruct (TargetCursor.deps_same p0 q).
    + destruct Hinv as [Hq|(H1 & i & tl & p' & o & r & Hs & Hi & Hl & Hact)]; [by left|].
      right. split; [exact H1|]. exists i, tl, q, o, r. cbn. repeat split; auto. congruence.
    + destruct (TargetCursor.effect _ _) as [w' cl'] eqn:E.
      refine (spin_inv_of_effect _ _ _ _ _ E).
      eapply cleanup_quiets; eauto.
  - (* Unmount *)
    left. change (live_timelines (TargetCursor.run_cleanup cl (TargetCursor.world c)) = 0%nat).
    eapply cleanup_quiets; eauto.
  - (* Attach *)
    destruct Hinv as [Hq|(H1 & i & tl & p' & o & r & Hs & Hi & Hl & Hact)]; [by left|].
    right. split; [exact H1|]. exists i, tl, p', o, r. cbn. repeat split; auto; congruence.
  - (* Pointer, mounted *)
    destruct (dispatch_calls_only ev (TargetCursor.world c)) as (_ & _ & _ & _ & _ & _ & Hs' & Ht' & _).
    destruct Hinv as [Hq|(H1 & i & tl & p' & o & r & Hs & Hi & Hl & Hact)].
    + left. unfold live_timelines in *. cbn. by rewrite Ht'.
    + right. unfold live_timelines in *. cbn. rewrite Ht', Hs'. split; [exact H1|].
      exists i, tl, p', o, r. repeat split; auto; congruence.
  - (* Pointer, not mounted *)
    destruct (dispatch_calls_only ev (TargetCursor.world c)) as (_ & _ & _ & _ & _ & _ & Hs' & Ht' & _).
    destruct Hinv as [Hq|(_ & ? & ? & ? & ? & ? & _ & _ & _ & Hact)]; [|congruence].
    left. unfold live_timelines in *. cbn. by rewrite Ht'.
Qed.

(** C9. On a page where the component is not mounted and no timeline runs,
    whatever the component then goes through (mounts, updates that run the
    effect again, ref changes, pointer events, unmounts), at most one timeline
    is running after every event, and none is once the component is
    unmounted. *)
Theorem at_most_one_spin_timeline c0 es :
  TargetCursor.active c0 = None ->
  live_timelines (TargetCursor.world c0) = 0%nat ->
  (live_timelines (TargetCursor.world (TargetCursor.run c0 es)) <= 1)%nat /\
  (TargetCursor.active (TargetCursor.run c0 es) = None ->
   live_timelines (TargetCursor.world (TargetCursor.run c0 es)) = 0%nat).
Proof.
  intros Ha Hq.
  assert (H : spin_inv (TargetCursor.run c0 es)).
  { apply run_invariant with (ok := fun _ => true).
    - intros c e Hc _. by apply spin_inv_step.
    - by left.
    - by induction es. }
  destruct H as [H|(H & ? & ? & ? & ? & ? & _ & _ & _ & Hact)].
  - split; [lia|auto].
  - split; [lia|congruence].
Qed.

Lemma at_most_one_spin_timeline_witness :
  let es := [TargetCursor.Mount default_props (Some 1%nat) (Some 2%nat);
             TargetCursor.Update slow_props; TargetCursor.Pointer move;
             TargetCursor.Update default_props] in
  (live_timelines (TargetCursor.world (TargetCursor.run page0 es)) <= 1)%nat /\
  (TargetCursor.active (TargetCursor.run page0 es) = None ->
   live_timelines (TargetCursor.world (TargetCursor.run page0 es)) = 0%nat).
Proof.
  exact (at_most_one_spin_timeline page0
           [TargetCursor.Mount default_props (Some 1%nat) (Some 2%nat);
            TargetCursor.Update slow_props; TargetCursor.Pointer move;
            TargetCursor.Update default_props] eq_refl eq_refl).
Defined.

(** ** The spin timeline *)

(** C7. When the effect runs with the indicator's element [c] in place, the
    timeline it stores in [spinTl.current] has repeat = -1 and the single
    tween (c, rotation '+=360', duration spinDuration, ease 'none').  One
    pass lasts spinDuration; during a pass the rotation grows linearly,
    start + 360 * t / spinDuration, and has advanced by 360 when the pass
    ends; every iteration is played, however many have gone by.  Pointer
    events leave the timeline as it is; the cleanup the effect returned
    kills it, after which no iteration is played. *)
Theorem effect_starts_endless_linear_spin p w c w' cl es :
  cursorRef w = Some c ->
  TargetCursor.effect p w = (w', cl) ->
  exists i tl,
    spinTl w' = Some i /\ timelines w' !! i = Some tl /\
    tl_repeat tl = (-1)%Z /\ tl_killed tl = false /\
    tl_tweens tl =
      [(c, {| xPercent := None; yPercent := None; x := None; y := None; scale := None;
              rotation := Some (PlusEq 360); duration := Some (spinDuration p);
              ease := Some EaseNone |})] /\
    cycle_duration tl == spinDuration p /\
    (forall start t, rotation_in_pass tl start t == start + 360 * (t / spinDuration p)) /\
    (~ spinDuration p == 0 ->
     forall start, rotation_in_pass tl start (spinDuration p) == start + 360) /\
    (forall n, plays tl n = true) /\
    spinTl (dispatch_all es w') = Some i /\
    timelines (dispatch_all es w') !! i = Some tl /\
    timelines (TargetCursor.run_cleanup cl (dispatch_all es w')) !! i = Some (kill tl) /\
    (forall n, plays (kill tl) n = false).
Proof.
  intros Hc E.
  destruct (effect_replaces_spin_index p w c w' cl Hc E) as (Hs & Hl).
  destruct (effect_completed _ _ _ _ _ Hc E) as (-> & _).
  destruct (dispatch_all_calls_only es w') as (_ & _ & _ & _ & _ & _ & Hs' & Ht' & _).
  exists (length (timelines w)), (spin_timeline c (spinDuration p)).
  repeat split; try reflexivity; try assumption.
  - cbn. apply Qplus_0_r.
  - intros Hd start. cbn. unfold dur. cbn. field. exact Hd.
  - congruence.
  - congruence.
  - destruct (run_cleanup_full (body_cursor w) (runs w) (dispatch_all es w')) as (_ & _ & -> & _).
    rewrite kill_timelines, Hs', Hs, Ht', list_lookup_alter_eq, Hl. reflexivity.
Qed.

Lemma effect_starts_endless_linear_spin_witness :
  let w' := (TargetCursor.effect default_props page1).1 in
  let cl := (TargetCursor.effect default_props page1).2 in
  exists i tl,
    spinTl w' = Some i /\ timelines w' !! i = Some tl /\
    tl_repeat tl = (-1)%Z /\ tl_killed tl = false /\
    tl_tweens tl =
      [(1%nat, {| xPercent := None; yPercent := None; x := None; y := None; scale := None;
                  rotation := Some (PlusEq 360); duration := Some (spinDuration default_props);
                  ease := Some EaseNone |})] /\
    cycle_duration tl == spinDuration default_props /\
    (forall start t,
       rotation_in_pass tl start t == start + 360 * (t / spinDuration default_props)) /\
    (~ spinDuration default_props == 0 ->
     forall start, rotation_in_pass tl start (spinDuration default_props) == start + 360) /\
    (forall n, plays tl n = true) /\
    spinTl (dispatch_all [move; press] w') = Some i /\
    timelines (dispatch_all [move; press] w') !! i = Some tl /\
    timelines (TargetCursor.run_cleanup cl (dispatch_all [move; press] w')) !! i
      = Some (kill tl) /\
    (forall n, plays (kill tl) n = false).
Proof.
  exact (effect_starts_endless_linear_spin default_props page1 1%nat
           (TargetCursor.effect default_props page1).1
           (TargetCursor.effect default_props page1).2
           [move; press] eq_refl eq_refl).
Defined.

(** ** Press and release *)

Lemma effect_listeners p w c w' cl :
  cursorRef w = Some c -> listeners w = [] ->
  TargetCursor.effect p w = (w', cl) ->
  listeners w' = mouse_listeners (runs w).
Proof.
  intros Hc Hl E. unfold TargetCursor.effect in E. rewrite cursorRef_hide, Hc in E.
  injection E as <- _.
  assert (Hl' : listeners (if hideDefaultCursor p then set_body_cursor "none" w else w) = [])
    by (destruct (hideDefaultCursor p); exact Hl).
  assert (Hr : runs (if hideDefaultCursor p then set_body_cursor "none" w else w) = runs w)
    by (destruct (hideDefaultCursor p); reflexivity).
  set (w1 := if hideDefaultCursor p then set_body_cursor "none" w else w) in *.
  world_simpl. rewrite Hr.
  unfold addEventListener at 3. world_simpl. rewrite Hl'. cbn.
  unfold addEventListener at 2. cbn.
  rewrite bool_decide_eq_false_2 by (intros [=]%list_elem_of_singleton).
  unfold addEventListener. cbn.
  rewrite bool_decide_eq_false_2; [reflexivity|].
  intros [[=]|[=]%list_elem_of_singleton]%elem_of_cons.
Qed.

(** C8, as the code has it.  After the effect of src/src/App.tsx has run on
    a page without listeners, take any later page [w2] that still has the
    listeners it registered.  A press asks gsap for two tweens and changes
    nothing else: the dot to scale 0.8, then the indicator to scale 0.95,
    both over 0.15; a release asks for both to go to scale 1 over 0.15.  This
    needs both [dotRef] and [cursorRef] to hold an element when the event
    arrives: if either is null the handlers return at their guard and the
    page is unchanged. *)
Theorem press_and_release_scale_when_elements_present p w c w' cl w2 e :
  cursorRef w = Some c -> listeners w = [] ->
  TargetCursor.effect p w = (w', cl) ->
  listeners w2 = listeners w' ->
  (forall c2 d2, cursorRef w2 = Some c2 -> dotRef w2 = Some d2 ->
     (ev_type e = mousedown ->
      TargetCursor.dispatch e w2 =
      gsap_call (CTo c2 (scale_vars 0.95 0.15)) (gsap_call (CTo d2 (scale_vars 0.8 0.15)) w2)) /\
     (ev_type e = mouseup ->
      TargetCursor.dispatch e w2 =
      gsap_call (CTo c2 (scale_vars 1 0.15)) (gsap_call (CTo d2 (scale_vars 1 0.15)) w2))) /\
  (cursorRef w2 = None \/ dotRef w2 = None ->
   ev_type e = mousedown \/ ev_type e = mouseup ->
   TargetCursor.dispatch e w2 = w2).
Proof.
  intros Hc Hl E Hl2. rewrite (effect_listeners _ _ _ _ _ Hc Hl E) in Hl2.
  unfold TargetCursor.dispatch. rewrite Hl2. unfold mouse_listeners. cbn.
  split.
  - intros c2 d2 Hc2 Hd2.
    split; intros ->; cbn; repeat case_bool_decide; try discriminate; try congruence;
      unfold TargetCursor.mouseDownHandler, TargetCursor.mouseUpHandler;
      rewrite Hc2, Hd2; reflexivity.
  - intros Hnone [-> | ->]; cbn; repeat case_bool_decide; try discriminate; try congruence;
      unfold TargetCursor.mouseDownHandler, TargetCursor.mouseUpHandler;
      destruct Hnone as [-> | ->]; try reflexivity; destruct (dotRef w2); reflexivity.
Qed.

Lemma press_and_release_scale_when_elements_present_witness :
  let w' := (TargetCursor.effect default_props page1).1 in
  (forall c2 d2, cursorRef w' = Some c2 -> dotRef w' = Some d2 ->
     (ev_type press = mousedown ->
      TargetCursor.dispatch press w' =
      gsap_call (CTo c2 (scale_vars 0.95 0.15)) (gsap_call (CTo d2 (scale_vars 0.8 0.15)) w')) /\
     (ev_type press = mouseup ->
      TargetCursor.dispatch press w' =
      gsap_call (CTo c2 (scale_vars 1 0.15)) (gsap_call (CTo d2 (scale_vars 1 0.15)) w'))) /\
  (cursorRef w' = None \/ dotRef w' = None ->
   ev_type press = mousedown \/ ev_type press = mouseup ->
   TargetCursor.dispatch press w' = w').
Proof.
  exact (press_and_release_scale_when_elements_present default_props page1 1%nat
           (TargetCursor.effect default_props page1).1
           (TargetCursor.effect default_props page1).2
           (TargetCursor.effect default_props page1).1 press
           eq_refl eq_refl eq_refl eq_refl).
Defined.

(** C8 does not hold as stated.  In the reduced App the effect has run with
    both elements in place, and a press or a release changes nothing: no
    handler for them was registered.  In src/src/App.tsx the effect has run
    and its three listeners are registered, but with no element behind
    [dotRef] a press or a release changes nothing either. *)
Lemma press_without_scale_feedback :
  (let w' := (Reduced.effect default_props page1).1 in
   cursorRef w' = Some 1%nat /\ dotRef w' = Some 2%nat /\
   listeners w' = [(mousemove, MoveHandler 0)] /\
   Reduced.dispatch press w' = w' /\ Reduced.dispatch release w' = w') /\
  (let w' := (TargetCursor.effect default_props page_without_dot).1 in
   listeners w' = mouse_listeners 0 /\
   TargetCursor.dispatch press w' = w' /\ TargetCursor.dispatch release w' = w').
Proof. vm_compute. repeat split. Qed.

(** ** The navigator *)

(** C4. Whatever the value of [screen], the rendered tree holds exactly one
    of the four screen views, the one of the current screen; the test ids of
    the other three are nowhere in it. *)
Theorem exactly_one_screen_view st :
  screen_views (App.render st) = [view_id (screen st)] /\
  (forall s, view_id s ∈ testids (App.render st) <-> s = screen st) /\
  (forall f, screen_views (PhoneMockup (screen st) f) = [view_id (screen st)]).
Proof.
  unfold App.render. destruct (screen st) eqn:E.
  all: split; [vm_compute; reflexivity|].
  all: split; [|intros f; vm_compute; reflexivity].
  all: intros s; split; [|intros ->; apply (bool_decide_unpack _); vm_compute; exact I].
  all: destruct s; try reflexivity.
  all: intros H; apply (bool_decide_pack _) in H; vm_compute in H; destruct H.
Qed.

Lemma mount_requests_invest page ce de :
  App.mount page ce de = App.setScreen invest (App.first_commit page ce de).
Proof. reflexivity. Qed.

(** C5. The claim: after a mount the current screen is Home, and every
    remount resets it to Home.  The code: the first commit has [screen] =
    home and shows the Home view, but [App]'s own effect then clicks
    nav-invest and looks for back-btn in the tree as committed, where there
    is none; of its four assertions the third, 'Invest screen should be shown
    after clicking nav-invest', is given false.  The queued request is then
    rendered, so that every mount, on any page and after any earlier mount,
    ends on Invest. *)
Theorem mount_ends_on_invest page cursorEl dotEl :
  let st0 := App.first_commit page cursorEl dotEl in
  screen st0 = home /\
  screen_views (App.render st0) = ["screen-home"] /\
  query_button "back-btn" (App.render st0) = None /\
  (App.mount_effect st0).1 = [true; true; false; true] /\
  App.mount page cursorEl dotEl = App.setScreen invest st0 /\
  screen (App.mount page cursorEl dotEl) = invest /\
  screen_views (App.render (App.mount page cursorEl dotEl)) = ["screen-invest"] /\
  (forall st es,
     screen (App.mount (App.unmount (App.run st es)) cursorEl dotEl) = invest).
Proof. repeat split. Qed.

(** *** Navigation requests *)

Lemma deps_same_refl p : TargetCursor.deps_same p p = true.
Proof.
  unfold TargetCursor.deps_same. rewrite Bool.eqb_reflx. cbn. apply Qeq_bool_iff. reflexivity.
Qed.

Lemma setScreen_cursor t st :
  cursor_mounted st -> cursor (App.setScreen t st) = cursor st.
Proof.
  intros [cl H]. unfold App.setScreen, TargetCursor.step. cbn. rewrite H.
  rewrite deps_same_refl. destruct (cursor st) as [w a]. cbn in *. by subst.
Qed.

Lemma setScreen_mounted t st : cursor_mounted st -> cursor_mounted (App.setScreen t st).
Proof. intros H. unfold cursor_mounted. by rewrite setScreen_cursor. Qed.

Lemma update_twice c q :
  TargetCursor.step (TargetCursor.step c (TargetCursor.Update q)) (TargetCursor.Update q)
  = TargetCursor.step c (TargetCursor.Update q).
Proof.
  destruct c as [w [[p cl]|]]; cbn; [|reflexivity].
  destruct (TargetCursor.deps_same p q).
  - cbn. by rewrite deps_same_refl.
  - destruct (TargetCursor.effect _ _) as [w' cl']. cbn. by rewrite deps_same_refl.
Qed.

(** Asking twice for the same screen is asking once, in any state. *)
Lemma setScreen_idempotent t st :
  App.setScreen t (App.setScreen t st) = App.setScreen t st.
Proof. unfold App.setScreen. cbn. f_equal. apply update_twice. Qed.

Lemma navigate_all_last st ts t : screen (App.navigate_all st (ts ++ [t])) = t.
Proof. unfold App.navigate_all. rewrite foldl_app. reflexivity. Qed.

Lemma navigate_all_cursor ts : forall st,
  cursor_mounted st -> cursor (App.navigate_all st ts) = cursor st.
Proof.
  induction ts as [|t ts IH]; intros st H; [reflexivity|]. cbn.
  unfold App.navigate_all in IH. rewrite IH by (by apply setScreen_mounted).
  by apply setScreen_cursor.
Qed.

Lemma mount_mounted page ce de :
  TargetCursor.active page = None -> cursor_mounted (App.mount page ce de).
Proof.
  intros H. rewrite mount_requests_invest. apply setScreen_mounted.
  unfold cursor_mounted, App.first_commit, TargetCursor.step. cbn. rewrite H.
  destruct (TargetCursor.effect _ _) as [w cl]. by exists cl.
Qed.

Lemma rendered_handlers st :
  Forall (fun b => exists t, b.2 = App.setScreen t) (buttons (App.render st)).
Proof.
  unfold App.render. destruct (screen st); cbn; repeat constructor; cbn; eauto.
Qed.

Lemma query_button_in tid n h :
  query_button tid n = Some h -> exists b, b ∈ buttons n /\ b.2 = h.
Proof.
  unfold query_button. intros H.
  destruct (filter _ (buttons n)) as [|b l] eqn:Hf; [discriminate|].
  cbn in H. injection H as <-. exists b. split; [|reflexivity].
  assert (Hin : b ∈ filter (λ b, b.1.1 = Some tid) (buttons n)) by (rewrite Hf; left).
  by apply list_elem_of_filter in Hin as [_ ?].
Qed.

Lemma step_mounted st e : cursor_mounted st -> cursor_mounted (App.step st e).
Proof.
  intros H. destruct e as [tid|t|ev]; cbn.
  - destruct (query_button tid (App.render st)) as [h|] eqn:Hq; [|exact H].
    apply query_button_in in Hq as (b & Hb & <-).
    pose proof (rendered_handlers st) as Hall. rewrite Forall_forall in Hall.
    destruct (Hall b Hb) as [t ->]. by apply setScreen_mounted.
  - by apply setScreen_mounted.
  - destruct H as [cl H]. exists cl. cbn. unfold TargetCursor.step. by rewrite H.
Qed.

Lemma run_mounted es : forall st, cursor_mounted st -> cursor_mounted (App.run st es).
Proof.
  induction es as [|e es IH]; intros st H; [exact H|]. cbn. apply IH. by apply step_mounted.
Qed.

(** C3. Mount [App] on a page where [TargetCursor] is not mounted, let it go
    through any clicks, requests and pointer events, and call the state it is
    in [st].  Then [setScreen t] returns a state for every [t]; its [screen]
    is [t]; after any requests ending in [t] the screen is [t]; a request
    made twice gives the state it gives made once; and the page with its
    cursor controller is the same after the requests as before. *)
Theorem navigation_sets_last_target page cursorEl dotEl es t ts :
  TargetCursor.active page = None ->
  let st := App.run (App.mount page cursorEl dotEl) es in
  screen (App.setScreen t st) = t /\
  screen (App.navigate_all st (ts ++ [t])) = t /\
  App.setScreen t (App.setScreen t st) = App.setScreen t st /\
  App.setScreen t st = {| screen := t; cursor := cursor st |} /\
  cursor (App.navigate_all st (ts ++ [t])) = cursor st.
Proof.
  intros Ha st.
  assert (Hm : cursor_mounted st) by (apply run_mounted, mount_mounted, Ha).
  split; [reflexivity|]. split; [apply navigate_all_last|].
  split; [apply setScreen_idempotent|]. split.
  - rewrite <- (setScreen_cursor t st Hm). reflexivity.
  - by apply navigate_all_cursor.
Qed.

Lemma navigation_sets_last_target_witness :
  let st := App.run (App.mount page0 (Some 1%nat) (Some 2%nat))
              [App.Click "nav-shop"; App.Mouse move] in
  screen (App.setScreen invest st) = invest /\
  screen (App.navigate_all st ([home; save] ++ [invest])) = invest /\
  App.setScreen invest (App.setScreen invest st) = App.setScreen invest st /\
  App.setScreen invest st = {| screen := invest; cursor := cursor st |} /\
  cursor (App.navigate_all st ([home; save] ++ [invest])) = cursor st.
Proof.
  exact (navigation_sets_last_target page0 (Some 1%nat) (Some 2%nat)
           [App.Click "nav-shop"; App.Mouse move] invest [home; save] eq_refl).
Defined.

(** *** The controls *)

Lemma phone_click_targets st :
  screen <$> App.clicks st =
  match screen st with
  | home => [shop; save; invest]
  | _ => [home]
  end.
Proof. unfold App.clicks, App.render. destruct (screen st); reflexivity. Qed.

Lemma bar_click_targets st : screen <$> ReducedApp.clicks st = [home; shop; save; invest].
Proof.
  unfold ReducedApp.clicks, ReducedApp.render.
  destruct (screen st); reflexivity.
Qed.

(** C2, as the code has it.  In src/src/App.tsx the screens a click on a
    rendered control leads to are Shop, Save and Invest from Home, and Home
    alone from each of Shop, Save and Invest: the star, exactly.  The reduced
    App renders the four buttons Home, Shop, Save, Invest on every screen, so
    there a click leads from every screen to every screen. *)
Theorem phone_controls_form_star st t :
  screen <$> App.clicks st =
    match screen st with home => [shop; save; invest] | _ => [home] end /\
  (t ∈ screen <$> App.clicks st <-> star (screen st) t = true) /\
  t ∈ screen <$> ReducedApp.clicks st.
Proof.
  split; [apply phone_click_targets|]. rewrite phone_click_targets, bar_click_targets.
  split.
  - destruct (screen st), t; cbn; split; intros H; try reflexivity; try discriminate;
      try (apply (bool_decide_unpack _); vm_compute; exact I);
      apply (bool_decide_pack _) in H; vm_compute in H; destruct H.
  - destruct t; apply (bool_decide_unpack _); vm_compute; exact I.
Qed.

(** C2 does not hold as stated: in the reduced App, on the Shop screen, the
    Invest button is rendered and a click on it leads to Invest, a step the
    star does not have. *)
Lemma bar_goes_from_shop_to_invest :
  screen at_shop = shop /\
  ReducedApp.setScreen invest at_shop ∈ ReducedApp.clicks at_shop /\
  screen (ReducedApp.setScreen invest at_shop) = invest /\
  star shop invest = false.
Proof.
  repeat split. unfold ReducedApp.clicks. cbn. do 3 right. left.
Qed.

(** ** Following the pointer *)

(** After the effect has run on a page without listeners, on any later page
    that still has its listeners, a mousemove asks gsap for one tween of the
    element now behind [cursorRef] to the event's coordinates, over 0.1 with
    ease power3.out, and changes nothing else; with nothing behind
    [cursorRef] the page is unchanged. *)
Theorem pointer_move_tweens_to_pointer p w c w' cl w2 e :
  cursorRef w = Some c -> listeners w = [] ->
  TargetCursor.effect p w = (w', cl) ->
  listeners w2 = listeners w' ->
  ev_type e = mousemove ->
  (forall c2, cursorRef w2 = Some c2 ->
     TargetCursor.dispatch e w2 =
     gsap_call (CTo c2 {| xPercent := None; yPercent := None;
                          x := Some (clientX e); y := Some (clientY e);
                          scale := None; rotation := None;
                          duration := Some 0.1%Q; ease := Some EasePower3Out |}) w2) /\
  (cursorRef w2 = None -> TargetCursor.dispatch e w2 = w2).
Proof.
  intros Hc Hl E Hl2 He. rewrite (effect_listeners _ _ _ _ _ Hc Hl E) in Hl2.
  unfold TargetCursor.dispatch. rewrite Hl2, He. unfold mouse_listeners. cbn.
  repeat case_bool_decide; try discriminate; try congruence.
  unfold moveCursor. split.
  - intros c2 ->. reflexivity.
  - intros ->. reflexivity.
Qed.

Lemma pointer_move_tweens_to_pointer_witness :
  let w' := (TargetCursor.effect default_props page1).1 in
  (forall c2, cursorRef w' = Some c2 ->
     TargetCursor.dispatch move w' =
     gsap_call (CTo c2 {| xPercent := None; yPercent := None;
                          x := Some (clientX move); y := Some (clientY move);
                          scale := None; rotation := None;
                          duration := Some 0.1%Q; ease := Some EasePower3Out |}) w') /\
  (cursorRef w' = None -> TargetCursor.dispatch move w' = w').
Proof.
  exact (pointer_move_tweens_to_pointer default_props page1 1%nat
           (TargetCursor.effect default_props page1).1
           (TargetCursor.effect default_props page1).2
           (TargetCursor.effect default_props page1).1 move
           eq_refl eq_refl eq_refl eq_refl eq_refl).
Defined.

(** ** A whole run of the effect and its cleanup *)

Lemma filter_ne_absent {A} `{EqDecision A} (a : A) (l : list A) :
  a ∉ l -> filter (fun x => x ≠ a) l = l.
Proof.
  induction l as [|b l IH]; intros H; [reflexivity|].
  apply not_elem_of_cons in H as [Hab Hl].
  rewrite filter_cons_True by congruence. by rewrite IH.
Qed.

Lemma filter_ne_here {A} `{EqDecision A} (a : A) (l : list A) :
  filter (fun x => x ≠ a) (a :: l) = filter (fun x => x ≠ a) l.
Proof. by rewrite filter_cons_False by (intros H; by apply H). Qed.

Lemma effect_listeners_fresh p w c w' cl :
  cursorRef w = Some c -> fresh_handlers w ->
  TargetCursor.effect p w = (w', cl) ->
  listeners w' = listeners w ++ mouse_listeners (runs w).
Proof.
  intros Hc Hf E. unfold TargetCursor.effect in E. rewrite cursorRef_hide, Hc in E.
  injection E as <- _.
  assert (Hl' : listeners (if hideDefaultCursor p then set_body_cursor "none" w else w)
                = listeners w) by (destruct (hideDefaultCursor p); reflexivity).
  assert (Hr : runs (if hideDefaultCursor p then set_body_cursor "none" w else w) = runs w)
    by (destruct (hideDefaultCursor p); reflexivity).
  set (w1 := if hideDefaultCursor p then set_body_cursor "none" w else w) in *.
  world_simpl. rewrite Hr.
  assert (H1 : (mousemove, MoveHandler (runs w)) ∉ listeners w) by (apply Hf; left).
  assert (H2 : (mousedown, MouseDownHandler (runs w)) ∉ listeners w)
    by (apply Hf; right; left).
  assert (H3 : (mouseup, MouseUpHandler (runs w)) ∉ listeners w)
    by (apply Hf; do 2 right; left).
  unfold addEventListener at 3. world_simpl. rewrite Hl'.
  rewrite bool_decide_eq_false_2 by exact H1.
  unfold addEventListener at 2. cbn.
  rewrite bool_decide_eq_false_2
    by (intros [?|[=]%list_elem_of_singleton]%elem_of_app; contradiction).
  unfold addEventListener. cbn.
  rewrite bool_decide_eq_false_2.
  - unfold mouse_listeners. by rewrite <- !app_assoc.
  - intros [[?|[=]%list_elem_of_singleton]%elem_of_app|[=]%list_elem_of_singleton]%elem_of_app.
    contradiction.
Qed.

Lemma remove_mouse_listeners l r :
  (forall tl, tl ∈ mouse_listeners r -> tl ∉ l) ->
  filter (fun tl => tl ≠ (mouseup, MouseUpHandler r))
    (filter (fun tl => tl ≠ (mousedown, MouseDownHandler r))
       (filter (fun tl => tl ≠ (mousemove, MoveHandler r)) (l ++ mouse_listeners r)))
  = l.
Proof.
  intros Hf. unfold mouse_listeners.
  assert (H1 : (mousemove, MoveHandler r) ∉ l) by (apply Hf; left).
  assert (H2 : (mousedown, MouseDownHandler r) ∉ l) by (apply Hf; right; left).
  assert (H3 : (mouseup, MouseUpHandler r) ∉ l) by (apply Hf; do 2 right; left).
  rewrite !filter_app, (filter_ne_absent _ l H1), filter_ne_here.
  rewrite (filter_cons_True _ (mousedown, _)) by discriminate.
  rewrite (filter_cons_True _ (mouseup, _)) by discriminate.
  rewrite filter_nil, (filter_ne_absent _ l H2).
  rewrite filter_ne_here, (filter_cons_True _ (mouseup, _)) by discriminate.
  rewrite filter_nil, (filter_ne_absent _ l H3), filter_ne_here, filter_nil.
  apply app_nil_r.
Qed.

Lemma dispatch_event_tweens r c d w2 e :
  listeners w2 = mouse_listeners r -> cursorRef w2 = Some c -> dotRef w2 = d ->
  calls (TargetCursor.dispatch e w2) = calls w2 ++ event_tweens c d e.
Proof.
  intros Hl Hc <-. unfold TargetCursor.dispatch, event_tweens. rewrite Hl.
  unfold mouse_listeners. cbn.
  destruct (ev_type e); repeat case_bool_decide; try discriminate; try congruence;
    unfold moveCursor, TargetCursor.mouseDownHandler, TargetCursor.mouseUpHandler;
    rewrite Hc; destruct (dotRef w2); cbn; rewrite <- ?app_assoc, ?app_nil_r; reflexivity.
Qed.

Lemma dispatch_all_event_tweens r c d es : forall w2,
  listeners w2 = mouse_listeners r -> cursorRef w2 = Some c -> dotRef w2 = d ->
  calls (dispatch_all es w2) = calls w2 ++ flat_map (event_tweens c d) es.
Proof.
  unfold dispatch_all. induction es as [|e es IH]; intros w2 Hl Hc Hd; cbn.
  - by rewrite app_nil_r.
  - destruct (dispatch_calls_only e w2) as (_ & _ & _ & _ & Hc' & Hd' & _ & _ & Hl' & _).
    rewrite IH by congruence.
    rewrite (dispatch_event_tweens r c d w2 e Hl Hc Hd), <- app_assoc. reflexivity.
Qed.

(** Run the effect with an element behind [cursorRef], let pointer events
    arrive, call the cleanup.  The cursor style, the refs and window's
    listener table are then what they were before the effect.  What stays
    behind: the timeline the run created, killed, at the end of the list with
    [spinTl.current] still pointing at it; the writes to the cursor style
    (['none'] when hiding, then the captured value); and the gsap calls.  Of
    these the effect makes one, the gsap.set that centres the indicator
    (xPercent = yPercent = -50, x and y half the window), and the cleanup
    none; when no other listener was registered, the events add exactly
    their own tweens, in order: one position tween per move, and per press or
    release the dot's scale tween and then the indicator's, or nothing when
    no element is behind [dotRef]. *)
Theorem effect_then_cleanup_round_trip p w c w' cl es :
  cursorRef w = Some c -> fresh_handlers w ->
  TargetCursor.effect p w = (w', cl) ->
  let w'' := TargetCursor.run_cleanup cl (dispatch_all es w') in
  let centre := CSet c {| xPercent := Some (-50)%Q; yPercent := Some (-50)%Q;
                          x := Some (innerWidth w / 2)%Q; y := Some (innerHeight w / 2)%Q;
                          scale := None; rotation := None; duration := None;
                          ease := None |} in
  body_cursor w'' = body_cursor w /\
  listeners w'' = listeners w /\
  cursorRef w'' = cursorRef w /\ dotRef w'' = dotRef w /\
  timelines w'' = timelines (kill_spin w) ++ [kill (spin_timeline c (spinDuration p))] /\
  spinTl w'' = Some (length (timelines w)) /\
  calls w' = calls w ++ [centre] /\
  calls w'' = calls (dispatch_all es w') /\
  (listeners w = [] ->
   calls w'' = calls w ++ [centre] ++ flat_map (event_tweens c (dotRef w)) es) /\
  cursor_writes w'' =
    cursor_writes w ++ (if hideDefaultCursor p then ["none"] else []) ++ [body_cursor w].
Proof.
  intros Hc Hf E w'' centre.
  pose proof (effect_listeners_fresh _ _ _ _ _ Hc Hf E) as Hl.
  destruct (effect_completed _ _ _ _ _ Hc E) as (Hcl & Hb & Hw & Ht & Hs & Hca & Hcr & Hdr).
  destruct (dispatch_all_calls_only es w')
    as (Hb' & Hw' & _ & _ & Hcr' & Hdr' & Hs' & Ht' & Hl' & _).
  subst cl. unfold w''.
  destruct (run_cleanup_full (body_cursor w) (runs w) (dispatch_all es w'))
    as (R1 & R2 & R3 & R4 & R5 & R6 & R7).
  assert (Hlen : length (timelines (kill_spin w)) = length (timelines w)).
  { rewrite kill_timelines. destruct (spinTl w); [apply length_alter|reflexivity]. }
  split; [exact R1|]. split.
  { unfold TargetCursor.run_cleanup. world_simpl. rewrite Hl', Hl.
    by apply remove_mouse_listeners. }
  split; [congruence|]. split; [congruence|]. split.
  { rewrite R3, kill_timelines, Hs', Hs, Ht', Ht.
    rewrite <- Hlen, <- (Nat.add_0_r (length (timelines (kill_spin w)))).
    rewrite alter_app_r. reflexivity. }
  split; [congruence|]. split; [exact Hca|]. split; [exact R7|]. split.
  { intros Hnil. rewrite Hnil in Hl. cbn in Hl.
    rewrite R7, (dispatch_all_event_tweens (runs w) c (dotRef w) es w' Hl Hcr Hdr), Hca.
    by rewrite <- app_assoc. }
  rewrite R2, Hw', Hw, <- app_assoc. reflexivity.
Qed.

Lemma effect_then_cleanup_round_trip_witness :
  let w' := (TargetCursor.effect default_props page1).1 in
  let cl := (TargetCursor.effect default_props page1).2 in
  let w'' := TargetCursor.run_cleanup cl (dispatch_all [move; press] w') in
  let centre := CSet 1%nat {| xPercent := Some (-50)%Q; yPercent := Some (-50)%Q;
                              x := Some (innerWidth page1 / 2)%Q;
                              y := Some (innerHeight page1 / 2)%Q;
                              scale := None; rotation := None; duration := None;
                              ease := None |} in
  body_cursor w'' = body_cursor page1 /\
  listeners w'' = listeners page1 /\
  cursorRef w'' = cursorRef page1 /\ dotRef w'' = dotRef page1 /\
  timelines w'' = timelines (kill_spin page1)
                  ++ [kill (spin_timeline 1%nat (spinDuration default_props))] /\
  spinTl w'' = Some (length (timelines page1)) /\
  calls w' = calls page1 ++ [centre] /\
  calls w'' = calls (dispatch_all [move; press] w') /\
  (listeners page1 = [] ->
   calls w'' = calls page1 ++ [centre]
               ++ flat_map (event_tweens 1%nat (dotRef page1)) [move; press]) /\
  cursor_writes w'' =
    cursor_writes page1 ++ (if hideDefaultCursor default_props then ["none"] else [])
    ++ [body_cursor page1].
Proof.
  refine (effect_then_cleanup_round_trip default_props page1 1%nat
            (TargetCursor.effect default_props page1).1
            (TargetCursor.effect default_props page1).2
            [move; press] eq_refl _ eq_refl).
  intros tl _. vm_compute. apply not_elem_of_nil.
Defined.

(** ** The listener table along the component's life *)

Lemma cleanup_full_clears_listeners o r w :
  listeners w = mouse_listeners r ->
  listeners (TargetCursor.run_cleanup (CleanupFull o r) w) = [].
Proof.
  intros H. unfold TargetCursor.run_cleanup. world_simpl. rewrite H.
  apply (remove_mouse_listeners [] r). intros tl _. apply not_elem_of_nil.
Qed.

Lemma effect_listeners_of p w w' cl :
  listeners w = [] ->
  TargetCursor.effect p w = (w', cl) ->
  listeners w' =
  listeners_of {| TargetCursor.world := w'; TargetCursor.active := Some (p, cl) |}.
Proof.
  intros Hl E. destruct (cursorRef w) as [c|] eqn:Hc.
  - rewrite (effect_listeners _ _ _ _ _ Hc Hl E).
    destruct (effect_completed _ _ _ _ _ Hc E) as (-> & _). reflexivity.
  - rewrite (effect_interrupted _ _ Hc) in E. injection E as <- <-.
    cbn. by destruct (hideDefaultCursor p).
Qed.

Lemma cleanup_clears_listeners c p cl :
  listeners (TargetCursor.world c) = listeners_of c ->
  TargetCursor.active c = Some (p, cl) ->
  listeners (TargetCursor.run_cleanup cl (TargetCursor.world c)) = [].
Proof.
  unfold listeners_of. intros H Ha. rewrite Ha in H. destruct cl as [|o r]; [exact H|].
  by apply cleanup_full_clears_listeners.
Qed.

Lemma listeners_of_step c e :
  listeners (TargetCursor.world c) = listeners_of c ->
  listeners (TargetCursor.world (TargetCursor.step c e)) = listeners_of (TargetCursor.step c e).
Proof.
  intros Hinv. unfold TargetCursor.step.
  destruct e as [p ce de|q| |ce de|ev]; destruct (TargetCursor.active c) as [[p0 cl]|] eqn:Ha;
    try exact Hinv.
  - destruct (TargetCursor.effect _ _) as [w' cl'] eqn:E.
    refine (effect_listeners_of _ _ _ _ _ E). cbn. rewrite Hinv. unfold listeners_of.
    by rewrite Ha.
  - destruct (TargetCursor.deps_same p0 q).
    + unfold listeners_of in *. cbn. by rewrite Ha in Hinv.
    + destruct (TargetCursor.effect _ _) as [w' cl'] eqn:E.
      refine (effect_listeners_of _ _ _ _ _ E). eapply cleanup_clears_listeners; eauto.
  - cbn. eapply cleanup_clears_listeners; eauto.
  - unfold listeners_of in *. cbn. by rewrite Ha in *.
  - destruct (dispatch_calls_only ev (TargetCursor.world c)) as (_&_&_&_&_&_&_&_&Hl&_).
    unfold listeners_of in *. cbn. rewrite Hl. by rewrite Ha in *.
  - destruct (dispatch_calls_only ev (TargetCursor.world c)) as (_&_&_&_&_&_&_&_&Hl&_).
    unfold listeners_of in *. cbn. rewrite Hl. by rewrite Ha in *.
Qed.

(** On a page without listeners where the component is not mounted, after
    any life of the component: window holds the three handlers of the run
    whose cleanup is pending, one per event type, or no listener at all; and
    once the component is unmounted there is none, so that pointer events
    leave the page exactly as it is. *)
Theorem unmounted_component_ignores_pointer c0 es :
  TargetCursor.active c0 = None ->
  listeners (TargetCursor.world c0) = [] ->
  let c := TargetCursor.run c0 es in
  listeners (TargetCursor.world c) = listeners_of c /\
  (forall t, length (filter (fun tl => tl.1 = t) (listeners (TargetCursor.world c))) <= 1)%nat /\
  (TargetCursor.active c = None ->
   listeners (TargetCursor.world c) = [] /\
   forall e, TargetCursor.dispatch e (TargetCursor.world c) = TargetCursor.world c).
Proof.
  intros Ha Hl c.
  assert (H : listeners (TargetCursor.world c) = listeners_of c).
  { apply (run_invariant (fun c => listeners (TargetCursor.world c) = listeners_of c)
             (fun _ => true)).
    - intros ? ? ? _. by apply listeners_of_step.
    - unfold listeners_of. by rewrite Ha.
    - by induction es. }
  split; [exact H|]. split.
  - intros t. rewrite H. unfold listeners_of.
    destruct (TargetCursor.active c) as [[p [|o r]]|]; cbn; try lia.
    destruct t; vm_compute; lia.
  - intros Hc. unfold listeners_of in H. rewrite Hc in H. split; [exact H|].
    intros e. unfold TargetCursor.dispatch. rewrite H. reflexivity.
Qed.

Lemma unmounted_component_ignores_pointer_witness :
  let c := TargetCursor.run page0
             [TargetCursor.Mount default_props (Some 1%nat) (Some 2%nat);
              TargetCursor.Pointer press; TargetCursor.Unmount] in
  listeners (TargetCursor.world c) = listeners_of c /\
  (forall t, length (filter (fun tl => tl.1 = t) (listeners (TargetCursor.world c))) <= 1)%nat /\
  (TargetCursor.active c = None ->
   listeners (TargetCursor.world c) = [] /\
   forall e, TargetCursor.dispatch e (TargetCursor.world c) = TargetCursor.world c).
Proof.
  exact (unmounted_component_ignores_pointer page0
           [TargetCursor.Mount default_props (Some 1%nat) (Some 2%nat);
            TargetCursor.Pointer press; TargetCursor.Unmount] eq_refl eq_refl).
Defined.

(** ** The cursor style along the component's life *)

Lemma effect_hides p w w' cl :
  hideDefaultCursor p = true ->
  TargetCursor.effect p w = (w', cl) -> body_cursor w' = "none".
Proof.
  intros Hh E. destruct (cursorRef w) as [c|] eqn:Hc.
  - destruct (effect_completed _ _ _ _ _ Hc E) as (_ & -> & _). by rewrite Hh.
  - rewrite (effect_interrupted _ _ Hc), Hh in E. by injection E as <- _.
Qed.

Lemma deps_same_hide p q :
  TargetCursor.deps_same p q = true -> hideDefaultCursor q = hideDefaultCursor p.
Proof.
  unfold TargetCursor.deps_same. intros [H _]%andb_prop.
  symmetry. by apply Bool.eqb_prop.
Qed.

(** Whatever the component goes through, whenever it is mounted with
    hideDefaultCursor = true the cursor style is ['none'], also when the
    indicator's element is missing. *)
Theorem cursor_hidden_while_mounted c0 es p cl :
  TargetCursor.active c0 = None ->
  TargetCursor.active (TargetCursor.run c0 es) = Some (p, cl) ->
  hideDefaultCursor p = true ->
  body_cursor (TargetCursor.world (TargetCursor.run c0 es)) = "none".
Proof.
  intros Ha.
  assert (H : hidden_if_asked (TargetCursor.run c0 es)).
  { apply (run_invariant hidden_if_asked (fun _ => true)).
    - clear. intros c e Hinv _. unfold TargetCursor.step.
      destruct e as [p ce de|q| |ce de|ev];
        destruct (TargetCursor.active c) as [[p0 cl0]|] eqn:Ha0; try exact Hinv;
        unfold hidden_if_asked in *; rewrite ?Ha0 in Hinv.
      + destruct (TargetCursor.effect _ _) as [w' cl'] eqn:E. cbn.
        intros ? ? [= <- _] Hh. eapply effect_hides; eauto.
      + destruct (TargetCursor.deps_same p0 q) eqn:Hd.
        * cbn. intros ? ? [= <- _] Hh. apply (Hinv p0 cl0 eq_refl).
          by rewrite <- (deps_same_hide _ _ Hd).
        * destruct (TargetCursor.effect _ _) as [w' cl'] eqn:E. cbn.
          intros ? ? [= <- _] Hh. eapply effect_hides; eauto.
      + cbn. discriminate.
      + cbn. intros ? ? [= <- <-] Hh. by apply (Hinv p0 cl0).
      + cbn. intros ? ? [= <- <-] Hh.
        destruct (dispatch_calls_only ev (TargetCursor.world c)) as (-> & _).
        by apply (Hinv p0 cl0).
      + cbn. discriminate.
    - intros ? ?. rewrite Ha. discriminate.
    - by induction es. }
  exact (H p cl).
Qed.

Lemma cursor_hidden_while_mounted_witness :
  body_cursor
    (TargetCursor.world
       (TargetCursor.run page0
          [TargetCursor.Mount default_props None None; TargetCursor.Pointer move]))
  = "none".
Proof.
  exact (cursor_hidden_while_mounted page0
           [TargetCursor.Mount default_props None None; TargetCursor.Pointer move]
           default_props CleanupVoid eq_refl eq_refl eq_refl).
Defined.

Lemma effect_scoped p w el w' cl :
  cursorRef w = Some el ->
  TargetCursor.effect p w = (w', cl) ->
  cursor_scoped (body_cursor w)
    {| TargetCursor.world := w'; TargetCursor.active := Some (p, cl) |}.
Proof.
  intros Hc E.
  destruct (effect_completed _ _ _ _ _ Hc E) as (-> & Hb & _ & _ & _ & _ & Hcr & _).
  unfold cursor_scoped. cbn. rewrite Hb, Hcr. eauto.
Qed.

Lemma cursor_scoped_step b c e :
  cursor_scoped b c -> elements_present e = true ->
  cursor_scoped b (TargetCursor.step c e).
Proof.
  intros Hinv He. unfold TargetCursor.step.
  destruct e as [p ce de|q| |ce de|ev]; destruct (TargetCursor.active c) as [[p0 cl0]|] eqn:Ha;
    try exact Hinv; unfold cursor_scoped in Hinv; rewrite Ha in Hinv; cbn in He.
  - (* Mount *)
    apply bool_decide_eq_true in He as [el ->].
    destruct (TargetCursor.effect _ _) as [w' cl'] eqn:E.
    rewrite <- Hinv.
    exact (effect_scoped p (set_refs (Some el) de None (TargetCursor.world c)) el w' cl'
             eq_refl E).
  - (* Update *)
    destruct Hinv as (Hb & [r ->] & [el Hel]).
    destruct (TargetCursor.deps_same p0 q) eqn:Hd.
    + unfold cursor_scoped. cbn. rewrite (deps_same_hide _ _ Hd), Hel. eauto.
    + destruct (TargetCursor.effect _ _) as [w' cl'] eqn:E.
      destruct (run_cleanup_full b r (TargetCursor.world c)) as (R1 & _ & _ & _ & R5 & _).
      rewrite <- R1. refine (effect_scoped _ _ el _ _ _ E). congruence.
  - (* Unmount *)
    destruct Hinv as (_ & [r ->] & _). unfold cursor_scoped. cbn. reflexivity.
  - (* Attach *)
    apply bool_decide_eq_true in He as [el ->].
    destruct Hinv as (Hb & Hr & _). unfold cursor_scoped. cbn. eauto.
  - (* Pointer, mounted *)
    destruct (dispatch_calls_only ev (TargetCursor.world c)) as (Hb' & _ & _ & _ & Hc' & _).
    unfold cursor_scoped. cbn. rewrite Hb', Hc'. exact Hinv.
  - (* Pointer, not mounted *)
    destruct (dispatch_calls_only ev (TargetCursor.world c)) as (Hb' & _).
    unfold cursor_scoped. cbn. rewrite Hb'. exact Hinv.
Qed.

(** Take a page where the component is not mounted, and a life of the
    component in which every mount and every ref change puts an element
    behind [cursorRef].  Then the cursor style is a scoped override: while
    the component is mounted it is ['none'] if the current props hide the
    cursor and the page's original value if they do not, also after updates
    that ran the effect again; and whenever the component is unmounted it is
    the original value. *)
Theorem cursor_restored_when_element_present c0 es :
  TargetCursor.active c0 = None ->
  forallb elements_present es = true ->
  let c := TargetCursor.run c0 es in
  (TargetCursor.active c = None ->
   body_cursor (TargetCursor.world c) = body_cursor (TargetCursor.world c0)) /\
  (forall p cl, TargetCursor.active c = Some (p, cl) ->
     body_cursor (TargetCursor.world c)
     = if hideDefaultCursor p then "none" else body_cursor (TargetCursor.world c0)).
Proof.
  intros Ha Hok c.
  assert (H : cursor_scoped (body_cursor (TargetCursor.world c0)) c).
  { apply run_invariant with (ok := elements_present); auto using cursor_scoped_step.
    unfold cursor_scoped. by rewrite Ha. }
  unfold cursor_scoped in H. split.
  - intros Hc. by rewrite Hc in H.
  - intros p cl Hc. rewrite Hc in H. apply H.
Qed.

Lemma cursor_restored_when_element_present_witness :
  let c := TargetCursor.run page0
             [TargetCursor.Mount default_props (Some 1%nat) (Some 2%nat);
              TargetCursor.Update slow_props; TargetCursor.Pointer press;
              TargetCursor.Unmount] in
  (TargetCursor.active c = None ->
   body_cursor (TargetCursor.world c) = body_cursor (TargetCursor.world page0)) /\
  (forall p cl, TargetCursor.active c = Some (p, cl) ->
     body_cursor (TargetCursor.world c)
     = if hideDefaultCursor p then "none" else body_cursor (TargetCursor.world page0)).
Proof.
  exact (cursor_restored_when_element_present page0
           [TargetCursor.Mount default_props (Some 1%nat) (Some 2%nat);
            TargetCursor.Update slow_props; TargetCursor.Pointer press;
            TargetCursor.Unmount] eq_refl eq_refl).
Defined.

(** ** Changing the props *)

Lemma spin_inv_run c0 es :
  TargetCursor.active c0 = None ->
  live_timelines (TargetCursor.world c0) = 0%nat ->
  spin_inv (TargetCursor.run c0 es).
Proof.
  intros Ha Hq. apply run_invariant with (ok := fun _ => true).
  - intros ? ? ? _. by apply spin_inv_step.
  - by left.
  - by induction es.
Qed.

Lemma length_kill_spin w : length (timelines (kill_spin w)) = length (timelines w).
Proof. rewrite kill_timelines. destruct (spinTl w); [apply length_alter|reflexivity]. Qed.

Lemma cleanup_keeps_shape cl w :
  cursorRef (TargetCursor.run_cleanup cl w) = cursorRef w /\
  length (timelines (TargetCursor.run_cleanup cl w)) = length (timelines w).
Proof.
  destruct cl as [|o r]; [by split|].
  destruct (run_cleanup_full o r w) as (_ & _ & -> & _ & -> & _).
  split; [reflexivity|]. rewrite kill_timelines.
  destruct (spinTl w); [apply length_alter|reflexivity].
Qed.

(** An update whose spinDuration or hideDefaultCursor differs from the last
    render's, with an element behind [cursorRef]: afterwards
    [spinTl.current] is a new timeline, appended to those created so far,
    spinning that element with the new spinDuration; it is the only timeline
    running, and every timeline created before the update is killed. *)
Theorem update_restarts_spin c0 es p cl q el :
  TargetCursor.active c0 = None ->
  live_timelines (TargetCursor.world c0) = 0%nat ->
  let c := TargetCursor.run c0 es in
  TargetCursor.active c = Some (p, cl) ->
  cursorRef (TargetCursor.world c) = Some el ->
  TargetCursor.deps_same p q = false ->
  let c' := TargetCursor.step c (TargetCursor.Update q) in
  let n := length (timelines (TargetCursor.world c)) in
  spinTl (TargetCursor.world c') = Some n /\
  timelines (TargetCursor.world c') !! n = Some (spin_timeline el (spinDuration q)) /\
  length (timelines (TargetCursor.world c')) = S n /\
  live_timelines (TargetCursor.world c') = 1%nat /\
  (forall j tl, (j < n)%nat -> timelines (TargetCursor.world c') !! j = Some tl ->
                tl_killed tl = true).
Proof.
  intros Ha Hq c Hc Hel Hd c' n.
  assert (Hinv : spin_inv c) by (by apply spin_inv_run).
  pose proof (cleanup_quiets c p cl Hinv Hc) as Hquiet.
  destruct (cleanup_keeps_shape cl (TargetCursor.world c)) as (Hcr & Hlen).
  unfold c', TargetCursor.step. rewrite Hc, Hd.
  destruct (TargetCursor.effect q _) as [w' cl'] eqn:E. cbn [TargetCursor.world].
  rewrite Hel in Hcr.
  destruct (effect_replaces_spin q _ el w' cl' Hcr) as (H1 & H2 & H3); [|exact E|].
  { intros j tl Hj Hal. exfalso. unfold live_timelines, live in Hquiet.
    apply nil_length_inv in Hquiet.
    eapply (filter_nil_not_elem_of _ _ tl Hquiet Hal), list_elem_of_lookup; eauto. }
  destruct (effect_completed _ _ _ _ _ Hcr E) as (_ & _ & _ & Ht & _).
  rewrite Hlen in H2, H3. fold n in H2, H3.
  split; [exact H2|]. split; [exact H3|]. split.
  { rewrite Ht, length_app, length_kill_spin, Hlen. cbn. unfold n. lia. }
  split; [exact H1|].
  intros j tl Hj Htl. destruct (tl_killed tl) eqn:Hk; [reflexivity|]. exfalso.
  assert (Hal : alive tl = true) by (unfold alive; by rewrite Hk).
  pose proof (live_one_at (timelines w') n _ H1 H3 eq_refl j tl Htl Hal). lia.
Qed.

Lemma update_restarts_spin_witness :
  let c := TargetCursor.run page0
             [TargetCursor.Mount default_props (Some 1%nat) (Some 2%nat)] in
  let c' := TargetCursor.step c (TargetCursor.Update slow_props) in
  let n := length (timelines (TargetCursor.world c)) in
  spinTl (TargetCursor.world c') = Some n /\
  timelines (TargetCursor.world c') !! n
    = Some (spin_timeline 1%nat (spinDuration slow_props)) /\
  length (timelines (TargetCursor.world c')) = S n /\
  live_timelines (TargetCursor.world c') = 1%nat /\
  (forall j tl, (j < n)%nat -> timelines (TargetCursor.world c') !! j = Some tl ->
                tl_killed tl = true).
Proof.
  exact (update_restarts_spin page0
           [TargetCursor.Mount default_props (Some 1%nat) (Some 2%nat)]
           default_props (CleanupFull "" 0) slow_props 1%nat
           eq_refl eq_refl eq_refl eq_refl eq_refl).
Defined.

(** ** The reduced TargetCursor beside the full one *)


Lemma reduced_effect_listeners_fresh p w c w' cl :
  cursorRef w = Some c -> fresh_handlers w ->
  Reduced.effect p w = (w', cl) ->
  listeners w' = listeners w ++ [(mousemove, MoveHandler (runs w))].
Proof.
  intros Hc Hf E. unfold Reduced.effect in E. rewrite cursorRef_hide, Hc in E.
  injection E as <- _.
  assert (Hl' : listeners (if hideDefaultCursor p then set_body_cursor "none" w else w)
                = listeners w) by (destruct (hideDefaultCursor p); reflexivity).
  assert (Hr : runs (if hideDefaultCursor p then set_body_cursor "none" w else w) = runs w)
    by (destruct (hideDefaultCursor p); reflexivity).
  set (w1 := if hideDefaultCursor p then set_body_cursor "none" w else w) in *.
  world_simpl. rewrite Hr.
  unfold addEventListener. world_simpl. rewrite Hl'.
  rewrite bool_decide_eq_false_2 by (apply Hf; left). reflexivity.
Qed.









(** In the reduced file, after the effect has run on a page without
    listeners, on any later page that still has its listener: a mousemove
    does what [moveCursor] does with the event's coordinates, and every
    other pointer event leaves the page exactly as it is. *)
Theorem reduced_reacts_to_moves_only p w c w' cl w2 e :
  cursorRef w = Some c -> listeners w = [] ->
  Reduced.effect p w = (w', cl) ->
  listeners w2 = listeners w' ->
  Reduced.dispatch e w2 =
  match ev_type e with
  | mousemove => moveCursor (clientX e) (clientY e) w2
  | _ => w2
  end.
Proof.
  intros Hc Hl E Hl2.
  assert (Hf : fresh_handlers w).
  { intros tl _. rewrite Hl. apply not_elem_of_nil. }
  rewrite (reduced_effect_listeners_fresh _ _ _ _ _ Hc Hf E), Hl in Hl2.
  unfold Reduced.dispatch. rewrite Hl2. cbn.
  destruct (ev_type e); case_bool_decide; try discriminate; try congruence; reflexivity.
Qed.

Lemma reduced_reacts_to_moves_only_witness :
  Reduced.dispatch press (Reduced.effect default_props page1).1 =
  match ev_type press with
  | mousemove => moveCursor (clientX press) (clientY press) (Reduced.effect default_props page1).1
  | _ => (Reduced.effect default_props page1).1
  end.
Proof.
  exact (reduced_reacts_to_moves_only default_props page1 1%nat
           (Reduced.effect default_props page1).1 (Reduced.effect default_props page1).2
           (Reduced.effect default_props page1).1 press eq_refl eq_refl eq_refl eq_refl).
Defined.

(** ** Clicking controls by test id *)

Lemma render_screen st1 st2 : screen st1 = screen st2 -> App.render st1 = App.render st2.
Proof. unfold App.render. by intros ->. Qed.

Lemma click_stays_or_star st tid :
  App.step st (App.Click tid) = st \/
  star (screen st) (screen (App.step st (App.Click tid))) = true.
Proof.
  cbn. destruct (query_button tid (App.render st)) as [h|] eqn:Hq; [|by left]. right.
  apply query_button_in in Hq as (b & Hb & <-).
  assert (Hin : screen (b.2 st) ∈ screen <$> App.clicks st).
  { unfold App.clicks. rewrite <- list_fmap_compose. apply list_elem_of_fmap. eauto. }
  rewrite phone_click_targets in Hin.
  destruct (screen st), (screen (b.2 st)); try reflexivity;
    apply (bool_decide_pack _) in Hin; vm_compute in Hin; destruct Hin.
Qed.

Lemma rendered_button_ids st :
  Forall (fun b => exists tid, b.1.1 = Some tid /\ tid ∈ control_ids)
         (buttons (App.render st)).
Proof.
  unfold App.render. destruct (screen st); cbn; repeat constructor; cbn;
    eexists; (split; [reflexivity|]); apply (bool_decide_unpack _); vm_compute; exact I.
Qed.

Lemma query_button_absent tid n :
  Forall (fun b => b.1.1 ≠ Some tid) (buttons n) -> query_button tid n = None.
Proof.
  unfold query_button. intros H.
  induction H as [|b l Hb _ IH]; [reflexivity|].
  by rewrite filter_cons_False.
Qed.

(** A click addressed by test id.  On Home, nav-shop, nav-save and
    nav-invest request Shop, Save and Invest, and back-btn finds no button;
    on the other three screens back-btn requests Home and the nav-* ids find
    no button.  A click that finds no button, as with any id other than these
    four, leaves the state as it is.  So a click either changes nothing or
    moves along the star. *)
Theorem click_follows_rendered_controls st tid :
  (screen st = home ->
   App.step st (App.Click "nav-shop") = App.setScreen shop st /\
   App.step st (App.Click "nav-save") = App.setScreen save st /\
   App.step st (App.Click "nav-invest") = App.setScreen invest st /\
   App.step st (App.Click "back-btn") = st) /\
  (screen st <> home ->
   App.step st (App.Click "back-btn") = App.setScreen home st /\
   App.step st (App.Click "nav-shop") = st /\
   App.step st (App.Click "nav-save") = st /\
   App.step st (App.Click "nav-invest") = st) /\
  (tid ∉ control_ids -> App.step st (App.Click tid) = st) /\
  (App.step st (App.Click tid) = st \/
   star (screen st) (screen (App.step st (App.Click tid))) = true).
Proof.
  split; [|split; [|split]].
  - destruct st as [s c]. cbn. intros ->. repeat split; vm_compute; reflexivity.
  - destruct st as [s c]. cbn. intros Hs. destruct s; [congruence| | |];
      repeat split; vm_compute; reflexivity.
  - intros Hn. cbn. rewrite query_button_absent; [reflexivity|].
    eapply Forall_impl; [apply rendered_button_ids|].
    intros b (t & Hb & Ht). rewrite Hb. intros [= ->]. contradiction.
  - apply click_stays_or_star.
Qed.

(** In every rendered tree the test ids are pairwise distinct, the phone
    frame is there, and no two buttons share a test id, so that a query by
    test id names at most one element. *)
Theorem rendered_test_ids_unique st tid :
  NoDup (testids (App.render st)) /\
  "phone" ∈ testids (App.render st) /\
  NoDup ((fun b => b.1.1) <$> buttons (App.render st)) /\
  (length (filter (fun b => b.1.1 = Some tid) (buttons (App.render st))) <= 1)%nat.
Proof.
  assert (H : NoDup ((fun b => b.1.1) <$> buttons (App.render st))).
  { unfold App.render. destruct (screen st); apply (bool_decide_unpack _); vm_compute; exact I. }
  split; [|split; [|split; [exact H|]]].
  - unfold App.render. destruct (screen st); apply (bool_decide_unpack _); vm_compute; exact I.
  - unfold App.render. destruct (screen st); apply (bool_decide_unpack _); vm_compute; exact I.
  - revert H. generalize (buttons (App.render st)) as l. clear.
    induction l as [|b l IH]; intros H; [cbn; lia|].
    rewrite fmap_cons in H. apply NoDup_cons in H as [Hb Hl].
    rewrite filter_cons. case_decide as Hd; [|auto].
    cbn. assert (Hnil : filter (λ b, b.1.1 = Some tid) l = []).
    { destruct (filter _ l) as [|b' l'] eqn:Hf; [reflexivity|]. exfalso.
      assert (Hin : b' ∈ filter (λ b, b.1.1 = Some tid) l) by (rewrite Hf; left).
      apply list_elem_of_filter in Hin as [Hb' Hin]. apply Hb.
      rewrite Hd, <- Hb'. apply list_elem_of_fmap. eauto. }
    rewrite Hnil. cbn. lia.
Qed.

(** From any screen every screen is at most two clicks away; but between two
    different screens other than Home one click is never enough. *)
Theorem every_screen_within_two_clicks st t :
  (exists tids, (length tids <= 2)%nat /\
                screen (App.run st (App.Click <$> tids)) = t) /\
  (screen st <> home -> t <> home -> t <> screen st ->
   forall tid, screen (App.step st (App.Click tid)) <> t).
Proof.
  split.
  - destruct st as [s c].
    destruct s, t;
      first [ exists []; split; [cbn; lia|reflexivity]
            | exists ["nav-shop"]; split; [cbn; lia|vm_compute; reflexivity]
            | exists ["nav-save"]; split; [cbn; lia|vm_compute; reflexivity]
            | exists ["nav-invest"]; split; [cbn; lia|vm_compute; reflexivity]
            | exists ["back-btn"]; split; [cbn; lia|vm_compute; reflexivity]
            | exists ["back-btn"; "nav-shop"]; split; [cbn; lia|vm_compute; reflexivity]
            | exists ["back-btn"; "nav-save"]; split; [cbn; lia|vm_compute; reflexivity]
            | exists ["back-btn"; "nav-invest"]; split; [cbn; lia|vm_compute; reflexivity] ].
  - intros Hs Ht Hne tid Heq.
    destruct (click_stays_or_star st tid) as [H|H].
    + rewrite H in Heq. congruence.
    + rewrite Heq in H. destruct (screen st), t; try discriminate; congruence.
Qed.

(** ** The navigator and the cursor controller side by side *)

Lemma step_screen_congr st1 st2 e :
  screen st1 = screen st2 -> screen (App.step st1 e) = screen (App.step st2 e).
Proof.
  intros H. destruct e as [tid|t|ev]; cbn; try assumption; [|reflexivity].
  rewrite <- (render_screen st1 st2 H).
  destruct (query_button tid (App.render st1)) as [h|] eqn:Hq; [|exact H].
  apply query_button_in in Hq as (b & Hb & <-).
  pose proof (rendered_handlers st1) as Hall. rewrite Forall_forall in Hall.
  destruct (Hall b Hb) as [t ->]. reflexivity.
Qed.

Lemma step_nav_cursor st e :
  cursor_mounted st -> is_mouse e = false -> cursor (App.step st e) = cursor st.
Proof.
  intros Hm He. destruct e as [tid|t|ev]; cbn in *; try discriminate.
  - destruct (query_button tid (App.render st)) as [h|] eqn:Hq; [|reflexivity].
    apply query_button_in in Hq as (b & Hb & <-).
    pose proof (rendered_handlers st) as Hall. rewrite Forall_forall in Hall.
    destruct (Hall b Hb) as [t ->]. exact (setScreen_cursor t st Hm).
  - exact (setScreen_cursor t st Hm).
Qed.

Lemma run_screen_nav es : forall st1 st2,
  screen st1 = screen st2 ->
  screen (App.run st1 es)
  = screen (App.run st2 (filter (fun e => is_mouse e = false) es)).
Proof.
  induction es as [|e es IH]; intros st1 st2 H; [exact H|].
  rewrite filter_cons. cbn [App.run foldl]. case_decide as He.
  - cbn [foldl]. apply IH. by apply step_screen_congr.
  - apply IH. destruct e; cbn in *; congruence.
Qed.

Lemma run_cursor_pointer es : forall st,
  cursor_mounted st ->
  cursor (App.run st es) = TargetCursor.run (cursor st) (pointer_events es).
Proof.
  induction es as [|e es IH]; intros st Hm; [reflexivity|].
  cbn [App.run foldl]. unfold App.run in IH. rewrite IH by (by apply step_mounted).
  destruct e as [tid|t|ev].
  - cbn [pointer_events omap]. fold (pointer_events es).
    by rewrite (step_nav_cursor st (App.Click tid) Hm).
  - cbn [pointer_events omap]. fold (pointer_events es).
    by rewrite (step_nav_cursor st (App.Navigate t) Hm).
  - reflexivity.
Qed.

(** Mount [App] on a page where [TargetCursor] is not mounted and let clicks,
    requests and pointer events arrive in any order.  The screen is the one
    the clicks and requests alone lead to, and the page with its cursor
    controller is the one the pointer events alone lead to: the clicks and
    requests never reach the cursor controller, whose effect does not run
    again, and the pointer events never reach the screen. *)
Theorem navigator_and_cursor_do_not_interfere page cursorEl dotEl es :
  TargetCursor.active page = None ->
  let st := App.mount page cursorEl dotEl in
  screen (App.run st es)
  = screen (App.run st (filter (fun e => is_mouse e = false) es)) /\
  cursor (App.run st es) = TargetCursor.run (cursor st) (pointer_events es) /\
  runs (TargetCursor.world (cursor (App.run st es)))
  = runs (TargetCursor.world (cursor st)).
Proof.
  intros Ha st.
  assert (Hm : cursor_mounted st) by (by apply mount_mounted).
  split; [by apply run_screen_nav|]. split; [by apply run_cursor_pointer|].
  rewrite (run_cursor_pointer es st Hm).
  generalize (cursor st) as c. clear. induction es as [|e es IH]; intros c; [reflexivity|].
  destruct e as [tid|t|ev]; cbn [pointer_events omap]; fold (pointer_events es);
    try apply IH.
  cbn. unfold TargetCursor.run in IH. rewrite IH. cbn.
  by destruct (dispatch_calls_only ev (TargetCursor.world c)) as (_&_&_&_&_&_&_&_&_&->).
Qed.

Lemma navigator_and_cursor_do_not_interfere_witness :
  let st := App.mount page0 (Some 1%nat) (Some 2%nat) in
  let es := [App.Mouse move; App.Click "nav-save"; App.Mouse press; App.Navigate shop] in
  screen (App.run st es)
  = screen (App.run st (filter (fun e => is_mouse e = false) es)) /\
  cursor (App.run st es) = TargetCursor.run (cursor st) (pointer_events es) /\
  runs (TargetCursor.world (cursor (App.run st es)))
  = runs (TargetCursor.world (cursor st)).
Proof.
  exact (navigator_and_cursor_do_not_interfere page0 (Some 1%nat) (Some 2%nat)
           [App.Mouse move; App.Click "nav-save"; App.Mouse press; App.Navigate shop]
           eq_refl).
Defined.
